(** * Documentation-to-PDF converters: the crawl, filter, render and merge
      pipeline of [apache_httpd_doc_crawler.py] and [mariadb_pdf.py], and the
      resumable download flow of [bind9_pdf_v2.py].

    Strings are byte strings ([string] of 8-bit [ascii]); Python sets are
    [gset string], Python dicts are [gmap string _], Python lists are [list]
    in Python order (index 0 first, [append] and [pop] act on the end).
    Everything outside the scripts (the network, wkhtmltopdf, PyPDF2, the
    disk) is an explicit oracle or an explicit store. *)

From Stdlib Require Import Ascii String.
From stdpp Require Import base option list strings gmap fin_maps.

Local Open Scope string_scope.

(* ===================================================================== *)
(** ** Python string methods used by the scripts *)
(* ===================================================================== *)

Module PyStr.

Definition is_upper (c : ascii) : bool :=
  let n := nat_of_ascii c in (65 <=? n)%nat && (n <=? 90)%nat.

Definition is_lower (c : ascii) : bool :=
  let n := nat_of_ascii c in (97 <=? n)%nat && (n <=? 122)%nat.

Definition is_digit (c : ascii) : bool :=
  let n := nat_of_ascii c in (48 <=? n)%nat && (n <=? 57)%nat.

Definition is_alpha (c : ascii) : bool := is_upper c || is_lower c.

Definition lower_char (c : ascii) : ascii :=
  if is_upper c then ascii_of_nat (nat_of_ascii c + 32) else c.

(** [s.lower()] on ASCII text. *)
Fixpoint lower (s : string) : string :=
  match s with
  | EmptyString => EmptyString
  | String c r => String (lower_char c) (lower r)
  end.

(** [s.startswith(p)]. *)
Fixpoint startswith (p s : string) : bool :=
  match p, s with
  | EmptyString, _ => true
  | String a p', String b s' => if Ascii.eqb a b then startswith p' s' else false
  | String _ _, EmptyString => false
  end.

(** [needle in hay]. *)
Fixpoint contains (needle hay : string) : bool :=
  startswith needle hay ||
  match hay with
  | EmptyString => false
  | String _ r => contains needle r
  end.

(** [c in s] for one character. *)
Fixpoint has_char (c : ascii) (s : string) : bool :=
  match s with
  | EmptyString => false
  | String d r => Ascii.eqb c d || has_char c r
  end.

(** [s.lstrip(c)]. *)
Fixpoint lstrip (c : ascii) (s : string) : string :=
  match s with
  | EmptyString => EmptyString
  | String d r => if Ascii.eqb c d then lstrip c r else s
  end.

(** [s.rstrip(c)]. *)
Fixpoint rstrip (c : ascii) (s : string) : string :=
  match s with
  | EmptyString => EmptyString
  | String d r =>
      match rstrip c r with
      | EmptyString => if Ascii.eqb c d then EmptyString else String d EmptyString
      | r' => String d r'
      end
  end.

(** [s.strip(c)]. *)
Definition strip (c : ascii) (s : string) : string := rstrip c (lstrip c s).

(** [s.split(c)]: always at least one field, empty fields are kept. *)
Fixpoint split (c : ascii) (s : string) : list string :=
  match s with
  | EmptyString => [EmptyString]
  | String d r =>
      if Ascii.eqb c d then EmptyString :: split c r
      else match split c r with
           | f :: fs => String d f :: fs
           | [] => [String d EmptyString]
           end
  end.

(** [s.replace(a, b)] for single characters. *)
Fixpoint replace (a b : ascii) (s : string) : string :=
  match s with
  | EmptyString => EmptyString
  | String d r => String (if Ascii.eqb a d then b else d) (replace a b r)
  end.

(** [s.split(c, 1)] when [c in s]: the text before and after the first [c]. *)
Fixpoint cut (c : ascii) (s : string) : string * string :=
  match s with
  | EmptyString => (EmptyString, EmptyString)
  | String d r =>
      if Ascii.eqb c d then (EmptyString, r)
      else let '(a, b) := cut c r in (String d a, b)
  end.

(** Truthiness of a [str]. *)
Definition truthy (s : string) : bool :=
  match s with EmptyString => false | _ => true end.

(** Truthiness of a value that is [None] or a [str]. *)
Definition truthy_opt (o : option string) : bool :=
  match o with Some s => truthy s | None => false end.

End PyStr.

(* ===================================================================== *)
(** ** [urllib.parse.urlparse] *)
(* ===================================================================== *)

(** The library routine, restricted to the three components the scripts read.
    Inputs are taken free of tabs, newlines and leading blanks (recent Python
    versions delete them first), and bracketed IPv6 hosts, which can raise,
    are out of the model. *)
Module Url.
Import PyStr.

Record parsed := { scheme : string; netloc : string; path : string }.

Definition scheme_char (c : ascii) : bool :=
  is_alpha c || is_digit c ||
  has_char c "+-.".

Fixpoint all_scheme_chars (s : string) : bool :=
  match s with
  | EmptyString => true
  | String c r => scheme_char c && all_scheme_chars r
  end.

Definition uses_params : list string :=
  [""; "ftp"; "hdl"; "prospero"; "http"; "imap"; "https"; "shttp"; "rtsp";
   "rtsps"; "rtspu"; "sip"; "sips"; "mms"; "sftp"; "tel"].

(** [url.find(':') > 0], the first character is a letter and everything
    before the colon is a scheme character: the scheme is split off. *)
Definition split_scheme (url : string) : string * string :=
  match url with
  | String c0 _ =>
      if has_char ":" url then
        let '(s, rest) := cut ":" url in
        if truthy s && is_alpha c0 && all_scheme_chars s
        then (lower s, rest) else (EmptyString, url)
      else (EmptyString, url)
  | EmptyString => (EmptyString, url)
  end.

(** [_splitnetloc(url, 2)]: the text up to the first of [/], [?], [#]. *)
Fixpoint take_netloc (s : string) : string * string :=
  match s with
  | EmptyString => (EmptyString, EmptyString)
  | String d r =>
      if has_char d "/?#" then (EmptyString, s)
      else let '(a, b) := take_netloc r in (String d a, b)
  end.

Definition split_netloc (url : string) : string * string :=
  match url with
  | String a (String b r) =>
      if Ascii.eqb a "/" && Ascii.eqb b "/" then take_netloc r
      else (EmptyString, url)
  | _ => (EmptyString, url)
  end.

(** Drop the fragment, then the query. *)
Definition drop_fragment_query (url : string) : string :=
  let u1 := if has_char "#" url then fst (cut "#" url) else url in
  if has_char "?" u1 then fst (cut "?" u1) else u1.

(** [_splitparams]: the parameters of the last path segment are cut off. *)
Fixpoint split_params_aux (s : string) : string :=
  match s with
  | EmptyString => EmptyString
  | String d r =>
      if Ascii.eqb d "/" then
        (if has_char "/" r then String d (split_params_aux r)
         else String d (if has_char ";" r then fst (cut ";" r) else r))
      else String d (split_params_aux r)
  end.

Definition split_params (url : string) : string :=
  if has_char "/" url then split_params_aux url
  else if has_char ";" url then fst (cut ";" url) else url.

Definition urlparse (url : string) : parsed :=
  let '(sch, u1) := split_scheme url in
  let '(loc, u2) := split_netloc u1 in
  let u3 := drop_fragment_query u2 in
  let p := if bool_decide (sch ∈ uses_params) && has_char ";" u3
           then split_params u3 else u3 in
  {| scheme := sch; netloc := loc; path := p |}.

End Url.

(* ===================================================================== *)
(** ** The link filter of [apache_httpd_doc_crawler.py] *)
(* ===================================================================== *)

Module Filter.
Import PyStr Url.

(** [DOC_PATH_REGEX = re.compile(r"^/docs/current/", re.IGNORECASE)],
    used through [.search(path)]. *)
Definition DOC_PATH_REGEX (p : string) : bool :=
  startswith "/docs/current/" (lower p).

(** [LOCALE_CODE_REGEX = re.compile(r"^[a-z]{2}(\-[a-z]{2})?$", re.IGNORECASE)],
    used through [.match(segment)]; [$] also matches just before a final
    newline. *)
Definition locale_core (s : string) : bool :=
  match s with
  | String a (String b EmptyString) => is_alpha a && is_alpha b
  | String a (String b (String d (String e (String f EmptyString)))) =>
      is_alpha a && is_alpha b && Ascii.eqb d "-" && is_alpha e && is_alpha f
  | _ => false
  end.

Definition newline : ascii := ascii_of_nat 10.

Fixpoint drop_final_newline (s : string) : string :=
  match s with
  | EmptyString => EmptyString
  | String c EmptyString => if Ascii.eqb c newline then EmptyString else s
  | String c r => String c (drop_final_newline r)
  end.

Definition LOCALE_CODE_REGEX (s : string) : bool :=
  locale_core s || locale_core (drop_final_newline s).

(** The CONFIG block of a crawler: the script fixes one, the spec's
    examples use another. *)
Record config := {
  DOMAIN : string;
  EXCLUDE_KEYWORDS : list string;
  doc_path_regex : string → bool;
  locale_code_regex : string → bool
}.

Definition apache_config : config :=
  {| DOMAIN := "httpd.apache.org";
     EXCLUDE_KEYWORDS :=
       ["zh-cn"; "ja"; "ko"; "fr"; "ru"; "pt-br";
        "faq"; "glossary"; "license"; "sitemap"];
     doc_path_regex := DOC_PATH_REGEX;
     locale_code_regex := LOCALE_CODE_REGEX |}.

(** The four [return False] sites of [is_valid_link] after the empty-href
    guard, and its [return True], each under its own name. *)
Inductive verdict :=
| Accept
| RejectEmpty
| RejectDomain
| RejectPath
| RejectKeyword
| RejectLocale.

#[global] Instance verdict_eq_dec : EqDecision verdict.
Proof. solve_decision. Defined.

(** [for kw in EXCLUDE_KEYWORDS: if kw in lower_path: return False]. *)
Fixpoint any_keyword (kws : list string) (lower_path : string) : bool :=
  match kws with
  | [] => false
  | kw :: rest => if contains kw lower_path then true else any_keyword rest lower_path
  end.

(** [len(splitted) >= 3 and LOCALE_CODE_REGEX.match(splitted[2])]. *)
Definition locale_segment (cfg : config) (p : string) : bool :=
  let splitted := split "/" (strip "/" p) in
  if (3 <=? length splitted)%nat then
    match splitted !! 2%nat with
    | Some seg => locale_code_regex cfg seg
    | None => false
    end
  else false.

Definition domain_mismatch (cfg : config) (p : parsed) : bool :=
  truthy (netloc p) && negb (String.eqb (lower (netloc p)) (DOMAIN cfg)).

Definition link_check (cfg : config) (href : string) : verdict :=
  if negb (truthy href) then RejectEmpty else
  let parsed := urlparse href in
  if domain_mismatch cfg parsed then RejectDomain else
  if negb (doc_path_regex cfg (path parsed)) then RejectPath else
  let lower_path := lower (path parsed) in
  if any_keyword (EXCLUDE_KEYWORDS cfg) lower_path then RejectKeyword else
  if locale_segment cfg (path parsed) then RejectLocale else
  Accept.

Definition is_valid_link (cfg : config) (href : string) : bool :=
  bool_decide (link_check cfg href = Accept).

(** The configuration of the spec's filter example. *)
Definition example_config : config :=
  {| DOMAIN := "example.org";
     EXCLUDE_KEYWORDS := ["faq"];
     doc_path_regex := DOC_PATH_REGEX;
     locale_code_regex := LOCALE_CODE_REGEX |}.

End Filter.

(* ===================================================================== *)
(** ** Parsed pages ([BeautifulSoup] trees) and the content cleaner *)
(* ===================================================================== *)

Module Dom.
Import PyStr.

(** A parsed page is a forest of nodes; [html.parser] has already put tag
    and attribute names in lower case. *)
#[warnings="-register-all"]
Inductive node :=
| Text (s : string)
| Elem (name : string) (attrs : list (string * string)) (children : list node).

Definition soup := list node.

Fixpoint attr (k : string) (attrs : list (string * string)) : option string :=
  match attrs with
  | [] => None
  | (k', v) :: rest => if String.eqb k k' then Some v else attr k rest
  end.

Definition is_space (c : ascii) : bool :=
  let n := nat_of_ascii c in
  (n =? 32)%nat || ((9 <=? n)%nat && (n <=? 13)%nat).

(** The value of a [class] attribute as the list of its words. *)
Fixpoint words_aux (cur : string) (s : string) : list string :=
  match s with
  | EmptyString => if truthy cur then [cur] else []
  | String c r =>
      if is_space c
      then (if truthy cur then cur :: words_aux EmptyString r
            else words_aux EmptyString r)
      else words_aux (cur ++ String c EmptyString) r
  end.

Definition classes (attrs : list (string * string)) : list string :=
  match attr "class" attrs with
  | Some v => words_aux EmptyString v
  | None => []
  end.

(** The three shapes of CSS selector the scripts use. *)
Inductive selector :=
| SelTag (name : string)
| SelId (id : string)
| SelClass (cls : string).

Definition matches (sel : selector) (n : node) : bool :=
  match n with
  | Text _ => false
  | Elem nm attrs _ =>
      match sel with
      | SelTag t => String.eqb nm t
      | SelId i => bool_decide (attr "id" attrs = Some i)
      | SelClass c => bool_decide (c ∈ classes attrs)
      end
  end.

(** [for tag in soup.select(sel): tag.decompose()]: every element that
    matches leaves the tree with all it contains. *)
Fixpoint decompose_node (sel : selector) (n : node) : option node :=
  match n with
  | Text _ => Some n
  | Elem nm attrs ch =>
      if matches sel n then None
      else Some (Elem nm attrs (omap (decompose_node sel) ch))
  end.

Definition decompose_all (sel : selector) (doc : soup) : soup :=
  omap (decompose_node sel) doc.

(** [for sel in SELECTORS_TO_REMOVE: ...]. *)
Definition remove_selectors (sels : list selector) (doc : soup) : soup :=
  foldl (λ d sel, decompose_all sel d) doc sels.

(** [soup.find(...)]: the first element, in document order, that
    satisfies the test. *)
Fixpoint find_node (p : node → bool) (n : node) : option node :=
  if p n then Some n
  else match n with
       | Text _ => None
       | Elem _ _ ch =>
           (fix first (l : list node) : option node :=
              match l with
              | [] => None
              | c :: rest =>
                  match find_node p c with
                  | Some r => Some r
                  | None => first rest
                  end
              end) ch
       end.

Fixpoint find (p : node → bool) (doc : soup) : option node :=
  match doc with
  | [] => None
  | c :: rest =>
      match find_node p c with
      | Some r => Some r
      | None => find p rest
      end
  end.

(** [soup.find_all(...)], in document order. *)
Fixpoint find_all_node (p : node → bool) (n : node) : list node :=
  (if p n then [n] else []) ++
  match n with
  | Text _ => []
  | Elem _ _ ch => flat_map (find_all_node p) ch
  end.

Definition find_all (p : node → bool) (doc : soup) : list node :=
  flat_map (find_all_node p) doc.

Definition is_tag (t : string) (n : node) : bool :=
  match n with Elem nm _ _ => String.eqb nm t | Text _ => false end.

Definition node_attr (k : string) (n : node) : option string :=
  match n with Elem _ attrs _ => attr k attrs | Text _ => None end.

Definition node_classes (n : node) : list string :=
  match n with Elem _ attrs _ => classes attrs | Text _ => [] end.

(** [soup.body]. *)
Definition body (doc : soup) : option node := find (is_tag "body") doc.

(** [str(tag)]: the markup of a node (entity escaping and the short form
    of void elements are left out). *)
Fixpoint str_attrs (attrs : list (string * string)) : string :=
  match attrs with
  | [] => EmptyString
  | (k, v) :: rest =>
      " " ++ k ++ "=" ++ String (ascii_of_nat 34) v
          ++ String (ascii_of_nat 34) (str_attrs rest)
  end.

Fixpoint str_node (n : node) : string :=
  match n with
  | Text s => s
  | Elem nm attrs ch =>
      "<" ++ nm ++ str_attrs attrs ++ ">"
        ++ (fix go (l : list node) : string :=
              match l with
              | [] => EmptyString
              | c :: rest => str_node c ++ go rest
              end) ch
        ++ "</" ++ nm ++ ">"
  end.

(** [str(soup)]. *)
Fixpoint str_soup (doc : soup) : string :=
  match doc with
  | [] => EmptyString
  | c :: rest => str_node c ++ str_soup rest
  end.

End Dom.

(* ===================================================================== *)
(** ** Content cleaners *)
(* ===================================================================== *)

Module Cleaner.
Import PyStr Dom.

(** [SELECTORS_TO_REMOVE] of the Apache crawler. *)
Definition SELECTORS_TO_REMOVE : list selector :=
  [SelTag "header"; SelTag "footer"; SelTag "nav"; SelTag "aside";
   SelId "page-header"; SelId "footer";
   SelClass "toplang"; SelClass "bottomlang"; SelClass "menu";
   SelId "comments_section"; SelId "comments_thread";
   SelTag "script"; SelTag "style"; SelTag "form"].

(** [soup.find("div", id="page-content")]. *)
Definition is_page_content (n : node) : bool :=
  is_tag "div" n && bool_decide (node_attr "id" n = Some "page-content").

(** The region [fetch_and_cleanup_html] returns, before [str]: a [Tag] is
    always truthy, so [if content_div] and [soup.body or soup] only test
    for [None]. *)
Inductive region :=
| MainContent (n : node)
| Body (n : node)
| WholeDocument (doc : soup).

Definition select_region (main : node → bool) (doc : soup) : region :=
  match find main doc with
  | Some content_div => MainContent content_div
  | None =>
      match body doc with
      | Some b => Body b
      | None => WholeDocument doc
      end
  end.

(** The nodes a region is made of. *)
Definition region_soup (r : region) : soup :=
  match r with
  | MainContent n | Body n => [n]
  | WholeDocument doc => doc
  end.

Definition str_region (r : region) : string :=
  match r with
  | MainContent n | Body n => str_node n
  | WholeDocument doc => str_soup doc
  end.

(** The part of the Apache [fetch_and_cleanup_html] after the request. *)
Definition cleanup (doc : soup) : string :=
  str_region (select_region is_page_content
                (remove_selectors SELECTORS_TO_REMOVE doc)).

(** The same part of [mariadb_pdf.py]: one selector group, then the
    [script] and [style] tags, then [div.Document] or the whole soup. *)
Definition mariadb_selectors : list selector :=
  [SelClass "Left-Nav"; SelClass "Right-Nav"; SelTag "footer";
   SelClass "modal-overlay"; SelClass "Controls";
   SelTag "script"; SelTag "style"].

Definition is_document_div (n : node) : bool :=
  is_tag "div" n && bool_decide ("Document" ∈ node_classes n).

Definition mariadb_cleanup (doc : soup) : string :=
  let d := remove_selectors mariadb_selectors doc in
  match find is_document_div d with
  | Some body_content => str_node body_content
  | None => str_soup d
  end.

End Cleaner.

(* ===================================================================== *)
(** ** The outside world of a crawler, and the state of its [main] *)
(* ===================================================================== *)

Module Crawl.
Import PyStr Url Dom Cleaner Filter.

(** What a path on disk holds: a readable PDF with its pages, or
    something PyPDF2 cannot open. *)
Inductive file :=
| Pdf (pages : list string)
| Unreadable.

(** Every call that leaves the script.  [None] is a raised exception. *)
Record world := {
  (** [requests.get(url)] + [raise_for_status()] + parsing, in [main]. *)
  crawl_get : string → option soup;
  (** The second request of the same page, in [fetch_and_cleanup_html]. *)
  clean_get : string → option soup;
  (** [urllib.parse.urljoin(base, href)]. *)
  urljoin : string → string → string;
  (** [pdfkit.from_string(html, path)]: the pages written to [path]. *)
  from_string : string → string → option (list string)
}.

(** The lines [main] prints, as events. *)
Inductive event :=
| EvCrawl (url : string)
| EvFetchError (url : string)
| EvPdfkitError (pdf_path : string)
| EvConvertError (url : string)
| EvSummary (n_visited n_created : nat)
| EvMerging (n : nat) (merged_path : string)
| EvMergeError (pdf_file : string)
| EvMergeComplete.

(** The module-level globals and the locals of [main], with the disk and
    the console. *)
Record state := {
  visited : gset string;
  to_visit : list string;
  pdf_files : list string;
  page_count : nat;
  disk : gmap string file;
  console : list event
}.

Definition with_to_visit (l : list string) (st : state) : state :=
  {| visited := visited st; to_visit := l; pdf_files := pdf_files st;
     page_count := page_count st; disk := disk st; console := console st |}.

Definition with_visited (v : gset string) (st : state) : state :=
  {| visited := v; to_visit := to_visit st; pdf_files := pdf_files st;
     page_count := page_count st; disk := disk st; console := console st |}.

Definition with_disk (d : gmap string file) (st : state) : state :=
  {| visited := visited st; to_visit := to_visit st; pdf_files := pdf_files st;
     page_count := page_count st; disk := d; console := console st |}.

Definition print (e : event) (st : state) : state :=
  {| visited := visited st; to_visit := to_visit st; pdf_files := pdf_files st;
     page_count := page_count st; disk := disk st;
     console := console st ++ [e] |}.

Definition append_pdf (p : string) (st : state) : state :=
  {| visited := visited st; to_visit := to_visit st;
     pdf_files := pdf_files st ++ [p];
     page_count := page_count st; disk := disk st; console := console st |}.

Definition incr_page_count (st : state) : state :=
  {| visited := visited st; to_visit := to_visit st; pdf_files := pdf_files st;
     page_count := S (page_count st); disk := disk st; console := console st |}.

(** [l.pop()]: the last element and the list without it. *)
Fixpoint pop (l : list string) : option (string * list string) :=
  match l with
  | [] => None
  | [x] => Some (x, [])
  | x :: r =>
      match pop r with
      | Some (y, r') => Some (y, x :: r')
      | None => None
      end
  end.

(** The URLs of the [[Crawl] url] lines, in the order printed. *)
Fixpoint crawled (evs : list event) : list string :=
  match evs with
  | [] => []
  | EvCrawl u :: r => u :: crawled r
  | _ :: r => crawled r
  end.

(** [a_tag["href"] for a_tag in soup.find_all("a", href=True)]. *)
Definition has_href (n : node) : bool :=
  is_tag "a" n && bool_decide (is_Some (node_attr "href" n)).

Definition hrefs (page : soup) : list string :=
  omap (node_attr "href") (find_all has_href page).

(** The file name of a page: [path.strip("/")], ["index"] when that is
    empty, slashes turned into dashes, [".pdf"], under [OUTPUT_DIR]. *)
Definition pdf_path (output_dir url : string) : string :=
  let path_part := strip "/" (path (urlparse url)) in
  let path_part := if truthy path_part then path_part else "index" in
  output_dir ++ "/" ++ replace "/" "-" path_part ++ ".pdf".

Section Loop.
Variable w : world.
(** [is_valid_link], [CRAWL_LIMIT] and the conversion block of the
    script at hand. *)
Variable valid : string → bool.
Variable CRAWL_LIMIT : nat.
Variable convert : string → state → state.

(** The [for a_tag in ...] loop: the frontier's [offer]. *)
Definition offer (vis : gset string) (url href : string)
    (tv : list string) : list string :=
  let link_url := urljoin w url href in
  if negb (bool_decide (link_url ∈ vis)) && valid link_url
  then tv ++ [link_url] else tv.

Definition offer_all (vis : gset string) (url : string)
    (page : soup) (tv : list string) : list string :=
  foldl (λ acc href, offer vis url href acc) tv (hrefs page).

(** [while to_visit and len(visited) < CRAWL_LIMIT]. *)
Definition loop_cond (st : state) : bool :=
  match to_visit st with
  | [] => false
  | _ => bool_decide (size (visited st) < CRAWL_LIMIT)
  end.

(** One pass through the body of the [while] loop. *)
Definition body (st : state) : state :=
  match pop (to_visit st) with
  | None => st
  | Some (url, rest) =>
      let st := with_to_visit rest st in
      if bool_decide (url ∈ visited st) then st else
      let st := with_visited ({[url]} ∪ visited st) st in
      let st := print (EvCrawl url) st in
      match crawl_get w url with
      | None => print (EvFetchError url) st
      | Some page =>
          let st := with_to_visit
                      (offer_all (visited st) url page (to_visit st)) st in
          convert url st
      end
  end.

(** The [while] loop, with a bound on the passes; [None] when the bound
    is reached with the loop still running. *)
Fixpoint while_loop (fuel : nat) (st : state) : option state :=
  if loop_cond st then
    match fuel with
    | O => None
    | S fuel' => while_loop fuel' (body st)
    end
  else Some st.

(** The state after [n] passes (or at loop exit, if that comes first). *)
Fixpoint passes (n : nat) (st : state) : state :=
  match n with
  | O => st
  | S n' => if loop_cond st then passes n' (body st) else st
  end.

End Loop.

(** A fresh frontier over a given worklist: nothing visited, nothing
    printed. *)
Definition start (worklist : list string) (disk0 : gmap string file) : state :=
  {| visited := ∅; to_visit := worklist; pdf_files := [];
     page_count := 0; disk := disk0; console := [] |}.

(** What the conversion block may not touch: both scripts' blocks keep the
    frontier and print no [[Crawl]] line. *)
Definition keeps_frontier (convert : string → state → state) : Prop :=
  ∀ url st,
    visited (convert url st) = visited st
    ∧ to_visit (convert url st) = to_visit st
    ∧ crawled (console (convert url st)) = crawled (console st).

(** The visited set is exactly the set of announced URLs, and no URL is
    announced twice. *)
Definition frontier_inv (st : state) : Prop :=
  NoDup (crawled (console st))
  ∧ visited st = list_to_set (crawled (console st)).

(** Everything on the worklist or already announced was either on the
    first worklist or passed the filter. *)
Definition inside_filter (valid : string → bool) (worklist : list string)
    (st : state) : Prop :=
  (∀ u, u ∈ to_visit st → u ∈ worklist ∨ valid u = true)
  ∧ (∀ u, u ∈ crawled (console st) → u ∈ worklist ∨ valid u = true).

(** Every path on the manifest holds a readable PDF. *)
Definition manifest_on_disk (st : state) : Prop :=
  ∀ p, p ∈ pdf_files st → ∃ pages, disk st !! p = Some (Pdf pages).

(** The visited-set discipline of a crawl loop.  At every point of a run
    from a fresh frontier, over any worklist, no URL has been announced
    (dequeued for processing) twice and the visited set is the set of
    announced URLs; a popped URL that is in the visited set is dropped
    with nothing else done; a popped URL that is not is in the visited set
    after the pass and announced once, whatever the request does. *)
Definition frontier_contract (w : world) (valid : string → bool)
    (limit : nat) (convert : string → state → state) : Prop :=
  (∀ worklist disk0 n,
      frontier_inv (passes w valid limit convert n (start worklist disk0)))
  ∧ (∀ st url rest,
      pop (to_visit st) = Some (url, rest) → url ∈ visited st →
      body w valid convert st = with_to_visit rest st)
  ∧ (∀ st url rest,
      pop (to_visit st) = Some (url, rest) → url ∉ visited st →
      url ∈ visited (body w valid convert st)
      ∧ crawled (console (body w valid convert st))
        = (crawled (console st) ++ [url])%list).

End Crawl.

(* ===================================================================== *)
(** ** [apache_httpd_doc_crawler.py] *)
(* ===================================================================== *)

Module Apache.
Import PyStr Url Dom Cleaner Filter Crawl.

Definition START_URL : string := "https://httpd.apache.org/docs/current/".
Definition OUTPUT_DIR : string := "apache_httpd_docs_pdf".
Definition CRAWL_LIMIT : nat := 200.
Definition CREATE_SINGLE_PDF : bool := true.
Definition MERGED_PDF_NAME : string := "Apache_HTTP_Server_24_Docs_Merged.pdf".

Section Script.
Variable w : world.
(** The CONFIG values the properties range over; the script's own are
    [apache_config] and [CRAWL_LIMIT]. *)
Variable cfg : config.
Variable limit : nat.

(** [fetch_and_cleanup_html]: [None] when the request raises. *)
Definition fetch_and_cleanup_html (url : string) : option string :=
  cleanup <$> clean_get w url.

(** [html_to_pdf]: the renderer's exception is caught here and printed;
    nothing is raised to the caller. *)
Definition html_to_pdf (html_str pdf_path : string) (st : state) : state :=
  match from_string w html_str pdf_path with
  | Some pages => with_disk (<[pdf_path := Pdf pages]> (disk st)) st
  | None => print (EvPdfkitError pdf_path) st
  end.

(** The [try] block that ends the loop body. *)
Definition convert (url : string) (st : state) : state :=
  let pdf_fullpath := pdf_path OUTPUT_DIR url in
  match fetch_and_cleanup_html url with
  | Some cleaned_html =>
      let st := html_to_pdf cleaned_html pdf_fullpath st in
      let st := append_pdf pdf_fullpath st in
      incr_page_count st
  | None => print (EvConvertError url) st
  end.

(** [merger.append(pdf_file)] inside its [try]: the pages so far and
    the console. *)
Definition merge_append (d : gmap string file) (pdf_file : string)
    (acc : list string * list event) : list string * list event :=
  match d !! pdf_file with
  | Some (Pdf pages) => ((acc.1 ++ pages)%list, acc.2)
  | _ => (acc.1, (acc.2 ++ [EvMergeError pdf_file])%list)
  end.

(** [merge_pdfs]: the output is written whatever was appended. *)
Definition merge_pdfs (pdf_list : list string) (output_pdf : string)
    (st : state) : state :=
  let '(merger, out) :=
    foldl (λ acc f, merge_append (disk st) f acc) ([], console st) pdf_list in
  {| visited := visited st; to_visit := to_visit st;
     pdf_files := pdf_files st; page_count := page_count st;
     disk := <[output_pdf := Pdf merger]> (disk st);
     console := out |}.

Definition crawl_body : state → state :=
  body w (is_valid_link cfg) convert.

Definition crawl_loop : nat → state → option state :=
  while_loop w (is_valid_link cfg) limit convert.

Definition merged_pdf_path : string := OUTPUT_DIR ++ "/" ++ MERGED_PDF_NAME.

(** What [main] does once the loop is over. *)
Definition finish (st : state) : state :=
  let st := print (EvSummary (size (visited st)) (page_count st)) st in
  if CREATE_SINGLE_PDF && bool_decide (pdf_files st ≠ []) then
    let st := print (EvMerging (length (pdf_files st)) merged_pdf_path) st in
    let st := merge_pdfs (pdf_files st) merged_pdf_path st in
    print EvMergeComplete st
  else st.

(** The globals at import time, over a given disk. *)
Definition initial (disk0 : gmap string file) : state :=
  {| visited := ∅; to_visit := [START_URL]; pdf_files := [];
     page_count := 0; disk := disk0; console := [] |}.

Definition main_from (fuel : nat) (st : state) : option state :=
  finish <$> crawl_loop fuel st.

Definition main (fuel : nat) (disk0 : gmap string file) : option state :=
  main_from fuel (initial disk0).

End Script.

(** Vocabulary for what a run left behind. *)
Section Outcome.
Variable w : world.

(** The pages wkhtmltopdf wrote for [url], if the page could be fetched
    for cleaning and the renderer did not fail. *)
Definition render_of (url : string) : option (list string) :=
  fetch_and_cleanup_html w url
    ≫= λ html, from_string w html (pdf_path OUTPUT_DIR url).

(** Of the URLs crawled, those whose conversion block got as far as
    [html_to_pdf]: both requests answered. *)
Definition converted (urls : list string) : list string :=
  filter (λ u, is_Some (crawl_get w u) ∧ is_Some (clean_get w u)) urls.

(** The disk after the conversion of [url]. *)
Definition apply_render (d : gmap string file) (url : string)
    : gmap string file :=
  match render_of url with
  | Some pages => <[pdf_path OUTPUT_DIR url := Pdf pages]> d
  | None => d
  end.

(** The pages PyPDF2 can append from a path. *)
Definition pages_at (d : gmap string file) (p : string) : list string :=
  match d !! p with
  | Some (Pdf pages) => pages
  | _ => []
  end.

(** What a run over the disk [disk0] has built so far, read off the
    URLs it announced. *)
Definition outcome_inv (disk0 : gmap string file) (st : state) : Prop :=
  let conv := converted (crawled (console st)) in
  pdf_files st = map (pdf_path OUTPUT_DIR) conv
  ∧ disk st = foldl apply_render disk0 conv
  ∧ page_count st = length conv.

(** Whether PyPDF2 can append a path. *)
Definition appendable (d : gmap string file) (p : string) : bool :=
  match d !! p with
  | Some (Pdf _) => true
  | _ => false
  end.

(** The lines [merge_pdfs] prints for the inputs it could not append. *)
Definition merge_errors (d : gmap string file) (l : list string)
    : list event :=
  flat_map (λ f, match d !! f with
                 | Some (Pdf _) => []
                 | _ => [EvMergeError f]
                 end) l.

End Outcome.

End Apache.

(* ===================================================================== *)
(** ** [mariadb_pdf.py] *)
(* ===================================================================== *)

Module Mariadb.
Import PyStr Url Dom Cleaner Crawl.

Definition START_URL : string := "https://mariadb.com/docs/server/".
Definition DOMAIN : string := "mariadb.com".
Definition OUTPUT_DIR : string := "mariadb_docs_pdf".
Definition CRAWL_LIMIT : nat := 200.
Definition CREATE_SINGLE_PDF : bool := false.

(** [re.compile(r"^/docs/server/.*", re.IGNORECASE).search(path)]. *)
Definition DOC_PATH_REGEX (p : string) : bool :=
  startswith "/docs/server/" (lower p).

Definition is_valid_link (href : string) : bool :=
  if negb (truthy href) then false else
  let parsed := urlparse href in
  if truthy (netloc parsed) && negb (String.eqb (netloc parsed) DOMAIN)
  then false else
  if negb (DOC_PATH_REGEX (path parsed)) then false else
  true.

Section Script.
Variable w : world.

(** The last [try] block of the loop: here the renderer's exception
    reaches [main], so a failed page is not put on [pdf_files]. *)
Definition convert (url : string) (st : state) : state :=
  let pdf_output_path := pdf_path OUTPUT_DIR url in
  match mariadb_cleanup <$> clean_get w url with
  | Some cleaned_html =>
      match from_string w cleaned_html pdf_output_path with
      | Some pages =>
          append_pdf pdf_output_path
            (with_disk (<[pdf_output_path := Pdf pages]> (disk st)) st)
      | None => print (EvConvertError url) st
      end
  | None => print (EvConvertError url) st
  end.

Definition crawl_body : state → state :=
  body w is_valid_link convert.

Definition crawl_loop : nat → state → option state :=
  while_loop w is_valid_link CRAWL_LIMIT convert.

End Script.

End Mariadb.

(* ===================================================================== *)
(** ** [bind9_pdf_v2.py]: the resumable download flow *)
(* ===================================================================== *)

Module Bind9.
Import PyStr Crawl.

Definition FINAL_MERGED_PDF : string := "ALL_MERGED.pdf".
Definition max_tries : nat := 30.

(** A [requests] call: an exception, a response that is not [ok], or the
    decoded body of an [ok] response. *)
Inductive reply (A : Type) :=
| Raises
| NotOk (status_code : nat)
| Ok (payload : A).
Arguments Raises {A}.
Arguments NotOk {A} status_code.
Arguments Ok {A} payload.

(** One entry of [taskStatus["result"]]. *)
Record result_item := { item_name : option string; item_value : option string }.

(** The [taskStatus] object of a status document. *)
Record task_status := { isComplete : bool; result : list result_item }.

(** A status document: its [taskStatus], if it has one; [{}] is [None]. *)
Definition status_data := option task_status.

Record api := {
  (** POST [generate-pdf]: [data.taskId] of the answer, if present. *)
  post_generate : string → string → reply (option string);
  (** GET [tasks/web/status/<taskId>], by attempt number. *)
  get_status : string → nat → reply status_data;
  (** GET of the result URL: the bytes that would be written. *)
  get_pdf : string → reply file
}.

(** One entry of [slug_cache.json]. *)
Record slug_info := {
  articleId : option string;
  lastChecked : option string;
  lastStatusCode : option nat
}.

Inductive event :=
| EvTrackerFileMissing (art_id pdf_file : string)
| EvAttempt (slug art_id : string)
| EvSuccess (slug out_name : string)
| EvFailDownload (slug : string)
| EvFailNoUrl (slug : string)
| EvMergeAppend (slug pdf_path : string)
| EvCouldNotAppend (pdf_path : string)
| EvMerged (n_pages : nat)
| EvNothingAppended.

(** The three caches of [main], the disk, the tracker file as last saved,
    and the console. *)
Record state := {
  slug_cache : gmap string slug_info;
  pdf_tracker : gmap string string;
  failed_slugs : gset string;
  files : gmap string file;
  tracker_file : gmap string string;
  out : list event
}.

Definition with_tracker (t : gmap string string) (st : state) : state :=
  {| slug_cache := slug_cache st; pdf_tracker := t;
     failed_slugs := failed_slugs st; files := files st;
     tracker_file := tracker_file st; out := out st |}.

Definition with_files (d : gmap string file) (st : state) : state :=
  {| slug_cache := slug_cache st; pdf_tracker := pdf_tracker st;
     failed_slugs := failed_slugs st; files := d;
     tracker_file := tracker_file st; out := out st |}.

Definition say (e : event) (st : state) : state :=
  {| slug_cache := slug_cache st; pdf_tracker := pdf_tracker st;
     failed_slugs := failed_slugs st; files := files st;
     tracker_file := tracker_file st; out := out st ++ [e] |}.

(** [save_json_dict(pdf_tracker, PDF_TRACKER_FILE)]. *)
Definition save_tracker (st : state) : state :=
  {| slug_cache := slug_cache st; pdf_tracker := pdf_tracker st;
     failed_slugs := failed_slugs st; files := files st;
     tracker_file := pdf_tracker st; out := out st |}.

(** [os.path.isfile]. *)
Definition isfile (d : gmap string file) (p : string) : bool :=
  bool_decide (is_Some (d !! p)).

(** Whether an answer of the status endpoint reports completion. *)
Definition completes (r : reply status_data) : bool :=
  match r with
  | Ok (Some ts) => isComplete ts
  | _ => false
  end.

Section Flow.
Variable net : api.
Variable ARTICLE_SLUGS : list string.

(** [poll_task_status]: attempts [attempt], [attempt + 1], ... while
    [remaining] lasts; the final document, or [{}]. *)
Fixpoint poll_from (task_id : string) (attempt remaining : nat) : status_data :=
  match remaining with
  | O => None
  | S remaining' =>
      match get_status net task_id attempt with
      | Ok (Some st) =>
          if isComplete st then Some st
          else poll_from task_id (S attempt) remaining'
      | _ => poll_from task_id (S attempt) remaining'
      end
  end.

Definition poll_task_status (task_id : string) : status_data :=
  poll_from task_id 1 max_tries.

(** [for item in st.get("result", []): if item.get("name") == "url":
    return item.get("value")]. *)
Fixpoint url_of_result (items : list result_item) : option (option string) :=
  match items with
  | [] => None
  | item :: rest =>
      if bool_decide (item_name item = Some "url")
      then Some (item_value item)
      else url_of_result rest
  end.

(** [generate_single_article_pdf]: the PDF URL, or [None]. *)
Definition generate_single_article_pdf (article_id file_name : string)
    : option string :=
  match post_generate net article_id file_name with
  | Ok task_id =>
      match task_id with
      | Some tid =>
          if negb (truthy tid) then None else
          match poll_task_status tid with
          | Some st =>
              if negb (isComplete st) then None else
              match url_of_result (result st) with
              | Some v => v
              | None => None
              end
          | None => None
          end
      | None => None
      end
  | _ => None
  end.

(** [download_pdf_file]: the disk afterwards and the returned flag. *)
Definition download_pdf_file (pdf_url output_path : string)
    (d : gmap string file) : gmap string file * bool :=
  match get_pdf net pdf_url with
  | Ok content => (<[output_path := content]> d, true)
  | _ => (d, false)
  end.

(** The block "Attempt generation" of Step B, with the save after it. *)
Definition attempt_generation (slug art_id : string) (st : state) : state :=
  let st := say (EvAttempt slug art_id) st in
  let pdf_url := generate_single_article_pdf art_id slug in
  let st :=
    match pdf_url with
    | Some u =>
        if truthy u then
          let out_name := slug ++ ".pdf" in
          let '(d, ok) := download_pdf_file u out_name (files st) in
          let st := with_files d st in
          if ok then
            say (EvSuccess slug out_name)
              (with_tracker (<[art_id := out_name]> (pdf_tracker st)) st)
          else say (EvFailDownload slug) st
        else say (EvFailNoUrl slug) st
    | None => say (EvFailNoUrl slug) st
    end in
  save_tracker st.

(** [slug_cache.get(slug, {}).get("articleId")], when truthy. *)
Definition article_id_of (st : state) (slug : string) : option string :=
  match slug_cache st !! slug with
  | Some info =>
      match articleId info with
      | Some a => if truthy a then Some a else None
      | None => None
      end
  | None => None
  end.

(** One pass of the Step B loop. *)
Definition download_step (slug : string) (st : state) : state :=
  if bool_decide (slug ∈ failed_slugs st) then st else
  match article_id_of st slug with
  | None => st
  | Some art_id =>
      match pdf_tracker st !! art_id with
      | Some pdf_file_already =>
          if isfile (files st) pdf_file_already then st
          else
            let st := say (EvTrackerFileMissing art_id pdf_file_already) st in
            let st := with_tracker (delete art_id (pdf_tracker st)) st in
            attempt_generation slug art_id st
      | None => attempt_generation slug art_id st
      end
  end.

(** Step B. *)
Definition step_B (st : state) : state :=
  foldl (λ s slug, download_step slug s) st ARTICLE_SLUGS.

(** One pass of the Step C loop: the merger's pages, the two lists of
    slugs and the console. *)
Record merge_acc := {
  merger_pages : list string;
  missing_slugs : list string;
  merge_failed_slugs : list string;
  merge_out : list event
}.

Definition merge_step (st : state) (slug : string) (acc : merge_acc)
    : merge_acc :=
  let missing :=
    {| merger_pages := merger_pages acc;
       missing_slugs := missing_slugs acc ++ [slug];
       merge_failed_slugs := merge_failed_slugs acc;
       merge_out := merge_out acc |} in
  if bool_decide (slug ∈ failed_slugs st) then missing else
  match article_id_of st slug with
  | None => missing
  | Some art_id =>
      match pdf_tracker st !! art_id with
      | Some pdf_path =>
          if negb (truthy pdf_path) then missing else
          match files st !! pdf_path with
          | None => missing
          | Some (Pdf pages) =>
              {| merger_pages := merger_pages acc ++ pages;
                 missing_slugs := missing_slugs acc;
                 merge_failed_slugs := merge_failed_slugs acc;
                 merge_out := merge_out acc ++ [EvMergeAppend slug pdf_path] |}
          | Some Unreadable =>
              {| merger_pages := merger_pages acc;
                 missing_slugs := missing_slugs acc;
                 merge_failed_slugs := merge_failed_slugs acc ++ [slug];
                 merge_out := merge_out acc ++
                   [EvMergeAppend slug pdf_path; EvCouldNotAppend pdf_path] |}
          end
      | None => missing
      end
  end.

Definition merge_loop (st : state) : merge_acc :=
  foldl (λ acc slug, merge_step st slug acc)
    {| merger_pages := []; missing_slugs := [];
       merge_failed_slugs := []; merge_out := out st |}
    ARTICLE_SLUGS.

(** Step C: the merged file is written only [if merger.pages]. *)
Definition step_C (st : state) : state :=
  let acc := merge_loop st in
  match merger_pages acc with
  | [] =>
      {| slug_cache := slug_cache st; pdf_tracker := pdf_tracker st;
         failed_slugs := failed_slugs st; files := files st;
         tracker_file := tracker_file st;
         out := merge_out acc ++ [EvNothingAppended] |}
  | pages =>
      {| slug_cache := slug_cache st; pdf_tracker := pdf_tracker st;
         failed_slugs := failed_slugs st;
         files := <[FINAL_MERGED_PDF := Pdf pages]> (files st);
         tracker_file := tracker_file st;
         out := merge_out acc ++ [EvMerged (length pages)] |}
  end.

End Flow.

(** A slug whose tracker entry, if it has one, names a file on disk. *)
Definition tracker_sound (st : state) (slug : string) : Prop :=
  ∀ art_id p,
    article_id_of st slug = Some art_id →
    pdf_tracker st !! art_id = Some p →
    isfile (files st) p = true.

(** How Step C treats a slug: left out as missing, appended with its pages,
    or tried and found unreadable. *)
Inductive merge_class :=
| Missing
| Appended (pages : list string)
| MergeFailed.

Definition classify (st : state) (slug : string) : merge_class :=
  if bool_decide (slug ∈ failed_slugs st) then Missing else
  match article_id_of st slug with
  | None => Missing
  | Some art_id =>
      match pdf_tracker st !! art_id with
      | Some pdf_path =>
          if negb (truthy pdf_path) then Missing else
          match files st !! pdf_path with
          | None => Missing
          | Some (Pdf pages) => Appended pages
          | Some Unreadable => MergeFailed
          end
      | None => Missing
      end
  end.

#[global] Instance merge_class_eq_dec : EqDecision merge_class.
Proof. solve_decision. Defined.

Definition appended_pages (c : merge_class) : list string :=
  match c with Appended pages => pages | _ => [] end.

(** *** Step A: resolving slugs to article identifiers *)

Definition BASE_ARTICLE_URL : string := "https://kb.isc.org/docs".
Definition PROJECT_VERSION_ID : string := "c8128481-2ed5-44b5-abba-44e290850c4d".
Definition GLOBAL_ID : string := lower PROJECT_VERSION_ID.

(** [\s] of a text pattern, on bytes. *)
Definition re_space (c : ascii) : bool :=
  let n := nat_of_ascii c in
  (n =? 32)%nat || ((9 <=? n)%nat && (n <=? 13)%nat)
  || ((28 <=? n)%nat && (n <=? 31)%nat).

(** [[0-9a-f-]] under [re.IGNORECASE]. *)
Definition id_char (c : ascii) : bool :=
  let n := nat_of_ascii (lower_char c) in
  is_digit c || ((97 <=? n)%nat && (n <=? 102)%nat) || Ascii.eqb c "-".

(** A literal of the pattern, matched without regard to case: what is left
    of the text after it. *)
Fixpoint after_literal (lit s : string) : option string :=
  match lit, s with
  | EmptyString, _ => Some s
  | String a lit', String b s' =>
      if Ascii.eqb (lower_char a) (lower_char b) then after_literal lit' s'
      else None
  | String _ _, EmptyString => None
  end.

(** [\s*]. *)
Fixpoint skip_spaces (s : string) : string :=
  match s with
  | String c r => if re_space c then skip_spaces r else s
  | EmptyString => EmptyString
  end.

(** [([0-9a-f-]{n})]: the group and the rest. *)
Fixpoint take_id (n : nat) (s : string) : option (string * string) :=
  match n with
  | O => Some (EmptyString, s)
  | S n' =>
      match s with
      | String c r =>
          if id_char c then
            match take_id n' r with
            | Some (g, rest) => Some (String c g, rest)
            | None => None
            end
          else None
      | EmptyString => None
      end
  end.

Definition quote : ascii := ascii_of_nat 34.

(** The pattern ["articleId"\s*:\s*"([0-9a-f-]{36})"] tried at the start of
    [s]: the group and the text after the match. *)
Definition match_article_id (s : string) : option (string * string) :=
  match after_literal (String quote ("articleId" ++ String quote EmptyString)) s with
  | Some s1 =>
      match skip_spaces s1 with
      | String c s2 =>
          if Ascii.eqb c ":" then
            match skip_spaces s2 with
            | String q s3 =>
                if Ascii.eqb q quote then
                  match take_id 36 s3 with
                  | Some (g, String q' rest) =>
                      if Ascii.eqb q' quote then Some (g, rest) else None
                  | _ => None
                  end
                else None
            | EmptyString => None
            end
          else None
      | EmptyString => None
      end
  | None => None
  end.

(** [re.findall]: the groups of the matches, left to right, a match being
    looked for again only after the end of the one before; [skip] counts the
    characters of the current match still to pass. *)
Fixpoint findall_from (skip : nat) (s : string) : list string :=
  match s with
  | EmptyString => []
  | String _ r =>
      match skip with
      | S k => findall_from k r
      | O =>
          match match_article_id s with
          | Some (g, rest) =>
              g :: findall_from (String.length s - String.length rest - 1) r
          | None => findall_from 0 r
          end
      end
  end.

Definition findall_article_ids (html_text : string) : list string :=
  findall_from 0 html_text.

(** [filtered[0] if filtered else None]. *)
Definition first_not_global (matches : list string) : option string :=
  head (filter (λ m, lower m ≠ GLOBAL_ID) matches).

Definition find_real_article_id (html_text : string) : option string :=
  first_not_global (findall_article_ids html_text).

(** [page.goto(url)]: an exception, [None], or a response with its status
    and the page content read after it. *)
Inductive goto_result :=
| GotoRaises
| GotoNone
| GotoResponse (status : nat) (content : string).

Record browser := {
  goto : string → goto_result;
  (** [time.strftime(...)] at the moment the slug is handled. *)
  strftime : string → string
}.

(** [slug_cache] and [failed_slugs] in memory and as last saved. *)
Record resolve_state := {
  cache : gmap string slug_info;
  failed : gset string;
  cache_file : gmap string slug_info;
  failed_file : gset string
}.

(** [slug in slug_cache and slug_cache[slug].get("articleId")]. *)
Definition has_article_id (c : gmap string slug_info) (slug : string) : bool :=
  match c !! slug with
  | Some info => truthy_opt (articleId info)
  | None => false
  end.

(** The entry of a slug after a visit, and whether the visit failed. *)
Definition visit_outcome (b : browser) (slug : string) (status : nat)
    (content : string) : slug_info * bool :=
  let entry id := {| articleId := id; lastChecked := Some (strftime b slug);
                     lastStatusCode := Some status |} in
  if (status =? 200)%nat then
    if truthy content then
      match find_real_article_id content with
      | Some found_id =>
          if truthy found_id then (entry (Some found_id), false)
          else (entry None, true)
      | None => (entry None, true)
      end
    else (entry None, true)
  else (entry None, true).

(** One pass of the Step A loop. *)
Definition resolve_step (b : browser) (slug : string) (st : resolve_state)
    : resolve_state :=
  if bool_decide (slug ∈ failed st) then st else
  if has_article_id (cache st) slug then st else
  match goto b (BASE_ARTICLE_URL ++ "/" ++ slug) with
  | GotoRaises =>
      let f := {[slug]} ∪ failed st in
      {| cache := cache st; failed := f;
         cache_file := cache_file st; failed_file := f |}
  | GotoNone =>
      let c := <[slug := {| articleId := None;
                            lastChecked := Some (strftime b slug);
                            lastStatusCode := Some 999%nat |}]> (cache st) in
      let f := {[slug]} ∪ failed st in
      {| cache := c; failed := f; cache_file := c; failed_file := f |}
  | GotoResponse status content =>
      let '(info, bad) := visit_outcome b slug status content in
      let c := <[slug := info]> (cache st) in
      let f := if bad then {[slug]} ∪ failed st else failed st in
      {| cache := c; failed := f; cache_file := c; failed_file := f |}
  end.

(** Step A. *)
Definition step_A (b : browser) (slugs : list string) (st : resolve_state)
    : resolve_state :=
  foldl (λ s slug, resolve_step b slug s) st slugs.

(** A slug Step A has nothing more to do for. *)
Definition settled (st : resolve_state) (slug : string) : Prop :=
  slug ∈ failed st ∨ has_article_id (cache st) slug = true.

(** No slug is both marked failed and resolved. *)
Definition failed_unresolved (st : resolve_state) : Prop :=
  ∀ slug, slug ∈ failed st → has_article_id (cache st) slug = false.

End Bind9.

(* ===================================================================== *)
(** ** Small sites and runs used as examples *)
(* ===================================================================== *)

Module Scenario.
Import PyStr Url Dom Cleaner Filter Crawl.

Definition X : string := "https://httpd.apache.org/docs/current/".
Definition Y : string := "https://httpd.apache.org/docs/current/mod/core.html".

Definition link (target : string) : node :=
  Elem "a" [("href", target)] [Text target].

Definition page_with (title : string) (links : list node) : soup :=
  [Elem "html" []
     [Elem "body" []
        (Elem "div" [("id", "page-content")] [Text title] :: links)]].

Fixpoint page_of (pages : list (string * soup)) (u : string) : option soup :=
  match pages with
  | [] => None
  | (u', p) :: rest => if String.eqb u u' then Some p else page_of rest u
  end.

(** A site given by its pages; hrefs are absolute, so [urljoin] returns
    them as they are; rendering works except at the paths in [broken]. *)
Definition site (pages : list (string * soup)) (broken : list string) : world :=
  {| crawl_get := page_of pages;
     clean_get := page_of pages;
     urljoin := λ _ href, href;
     from_string := λ html pdf_path,
       if bool_decide (pdf_path ∈ broken) then None else Some [html] |}.

(** X links to Y and Y links back to X. *)
Definition cycle_site : world :=
  site [(X, page_with "x" [link Y]); (Y, page_with "y" [link X])] [].

(** X carries the same link twice. *)
Definition twice_site : world :=
  site [(X, page_with "x" [link Y; link Y]); (Y, page_with "y" [])] [].


(** A single page, on which wkhtmltopdf fails. *)
Definition lone_broken_site : world :=
  site [(X, page_with "x" [])] [pdf_path Apache.OUTPUT_DIR X].




(** The MariaDB start page alone, rendering well and rendering badly. *)
Definition M : string := "https://mariadb.com/docs/server/".

Definition mariadb_site : world := site [(M, page_with "m" [])] [].

Definition mariadb_broken_site : world :=
  site [(M, page_with "m" [])] [pdf_path Mariadb.OUTPUT_DIR M].

(** The resumable flow: one slug, resolved to an article identifier. *)
Definition slug1 : string := "aa-01310".
Definition art1 : string := "0f0e0d0c-0b0a-4908-8706-050403020100".
Definition task1 : string := "task-1".

Definition resolved_cache : gmap string Bind9.slug_info :=
  {[ slug1 := {| Bind9.articleId := Some art1;
                 Bind9.lastChecked := Some "2025-01-01 00:00:00";
                 Bind9.lastStatusCode := Some 200%nat |} ]}.

(** The tracker records a download whose file is no longer on disk. *)
Definition stale_state : Bind9.state :=
  {| Bind9.slug_cache := resolved_cache;
     Bind9.pdf_tracker := {[ art1 := "aa-01310.pdf" ]};
     Bind9.failed_slugs := ∅;
     Bind9.files := ∅;
     Bind9.tracker_file := {[ art1 := "aa-01310.pdf" ]};
     Bind9.out := [] |}.

(** The tracked file is on disk but is not a PDF PyPDF2 can read. *)
Definition unreadable_state : Bind9.state :=
  {| Bind9.slug_cache := resolved_cache;
     Bind9.pdf_tracker := {[ art1 := "aa-01310.pdf" ]};
     Bind9.failed_slugs := ∅;
     Bind9.files := {[ "aa-01310.pdf" := Unreadable ]};
     Bind9.tracker_file := {[ art1 := "aa-01310.pdf" ]};
     Bind9.out := [] |}.

(** The service accepts the request and never reports completion. *)
Definition never_done : Bind9.api :=
  {| Bind9.post_generate := λ _ _, Bind9.Ok (Some task1);
     Bind9.get_status := λ _ _,
       Bind9.Ok (Some {| Bind9.isComplete := false; Bind9.result := [] |});
     Bind9.get_pdf := λ _, Bind9.Raises |}.

(** The service completes at the third poll and serves the file. *)
Definition done_at_third : Bind9.api :=
  {| Bind9.post_generate := λ _ _, Bind9.Ok (Some task1);
     Bind9.get_status := λ _ attempt,
       if (3 <=? attempt)%nat
       then Bind9.Ok (Some {| Bind9.isComplete := true;
               Bind9.result :=
                 [{| Bind9.item_name := Some "url";
                     Bind9.item_value := Some "https://cdn.example/a.pdf" |}] |})
       else Bind9.NotOk 503;
     Bind9.get_pdf := λ _, Bind9.Ok (Pdf ["page 1"; "page 2"]) |}.

(** A knowledge-base page: the project-wide identifier first, in capitals,
    then the article's own. *)
Definition q : string := String Bind9.quote EmptyString.

Definition kb_page : string :=
  "{" ++ q ++ "articleId" ++ q ++ ":" ++ q
      ++ "C8128481-2ED5-44B5-ABBA-44E290850C4D" ++ q ++ ","
      ++ q ++ "ArticleId" ++ q ++ " : " ++ q ++ art1 ++ q ++ "}".

Definition kb_browser : Bind9.browser :=
  {| Bind9.goto := λ _, Bind9.GotoResponse 200 kb_page;
     Bind9.strftime := λ _, "2025-01-01 00:00:00" |}.

Definition dead_browser : Bind9.browser :=
  {| Bind9.goto := λ _, Bind9.GotoRaises;
     Bind9.strftime := λ _, "2025-01-02 00:00:00" |}.

Definition nothing_resolved : Bind9.resolve_state :=
  {| Bind9.cache := ∅; Bind9.failed := ∅;
     Bind9.cache_file := ∅; Bind9.failed_file := ∅ |}.

End Scenario.

(* ===================================================================== *)
(** * Properties *)
(* ===================================================================== *)

Import PyStr Url Dom Cleaner Filter Crawl Scenario.
Local Open Scope list_scope.
#[local] Set Warnings "-clear-no-such-hyp".

(** ** The frontier: worklist and visited set *)

Section FrontierFacts.
Context (w : world) (valid : string → bool) (limit : nat).
Context (convert : string → state → state).

Lemma pop_snoc (l : list string) x : pop (l ++ [x]) = Some (x, l).
Proof.
  induction l as [|y l IH]; [done|].
  simpl. rewrite IH. destruct l; done.
Qed.

Lemma pop_Some (l : list string) x r : pop l = Some (x, r) → l = r ++ [x].
Proof.
  destruct (decide (l = [])) as [->|Hne]; [done|].
  destruct (exists_last Hne) as (l' & y & ->).
  rewrite pop_snoc. by intros [= -> ->].
Qed.

Lemma pop_None (l : list string) : pop l = None → l = [].
Proof.
  destruct (decide (l = [])) as [->|Hne]; [done|].
  destruct (exists_last Hne) as (l' & y & ->).
  by rewrite pop_snoc.
Qed.

Lemma crawled_app a b : crawled (a ++ b) = crawled a ++ crawled b.
Proof.
  induction a as [|e a IH]; [done|].
  destruct e; simpl; by rewrite ?IH.
Qed.

(** The [for a_tag] loop appends, in page order, the joined links that are
    unvisited and pass the filter; nothing else is looked at. *)
Lemma offer_all_filter vis url page tv :
  offer_all w valid vis url page tv =
  tv ++ filter (λ l, (l ∉ vis) ∧ (valid l = true))
          (map (urljoin w url) (hrefs page)).
Proof.
  unfold offer_all. generalize (hrefs page) as hs. intros hs.
  revert tv. induction hs as [|h hs IH]; intros tv; simpl.
  - by rewrite app_nil_r.
  - rewrite IH. unfold offer. rewrite filter_cons.
    destruct (decide ((urljoin w url h ∉ vis) ∧ (valid (urljoin w url h) = true)))
      as [[Hv Hok]|Hno].
    + rewrite bool_decide_eq_false_2 by done. rewrite Hok. simpl.
      by rewrite <- app_assoc.
    + destruct (bool_decide (urljoin w url h ∈ vis)) eqn:Hb; simpl; [done|].
      apply bool_decide_eq_false in Hb.
      destruct (valid (urljoin w url h)) eqn:Hok; [|done].
      exfalso. apply Hno. done.
Qed.

Hypothesis Hconv : keeps_frontier convert.

(** A popped URL that is already visited is dropped and nothing else
    happens. *)
Lemma body_skip st url rest :
  pop (to_visit st) = Some (url, rest) → url ∈ visited st →
  body w valid convert st = with_to_visit rest st.
Proof.
  intros Hp Hin. unfold body. rewrite Hp. simpl.
  by rewrite bool_decide_eq_true_2.
Qed.

(** A popped URL that is new is marked visited and announced, whatever the
    request and the conversion do afterwards. *)
Lemma body_fresh st url rest :
  pop (to_visit st) = Some (url, rest) → url ∉ visited st →
  visited (body w valid convert st) = {[url]} ∪ visited st
  ∧ crawled (console (body w valid convert st))
    = crawled (console st) ++ [url]
  ∧ to_visit (body w valid convert st) =
      match crawl_get w url with
      | Some page => offer_all w valid ({[url]} ∪ visited st) url page rest
      | None => rest
      end.
Proof.
  intros Hp Hin. unfold body. rewrite Hp. simpl.
  rewrite bool_decide_eq_false_2 by done.
  destruct (crawl_get w url) as [page|]; simpl.
  - destruct (Hconv url
      (with_to_visit
         (offer_all w valid ({[url]} ∪ visited st) url page rest)
         (print (EvCrawl url)
            (with_visited ({[url]} ∪ visited st) (with_to_visit rest st)))))
      as (Hv & Ht & Hc).
    rewrite Hv, Ht, Hc. simpl. rewrite crawled_app. simpl. done.
  - rewrite !crawled_app. simpl. by rewrite app_nil_r.
Qed.

Lemma body_inv st : frontier_inv st → frontier_inv (body w valid convert st).
Proof.
  intros [Hnd Hvis].
  destruct (pop (to_visit st)) as [[url rest]|] eqn:Hp.
  - destruct (decide (url ∈ visited st)) as [Hin|Hin].
    + rewrite (body_skip _ _ _ Hp Hin). done.
    + destruct (body_fresh _ _ _ Hp Hin) as (Hv & Hc & _).
      split.
      * rewrite Hc. apply NoDup_app. split; [done|].
        split; [|apply NoDup_singleton].
        intros x Hx ->%list_elem_of_singleton.
        apply Hin. rewrite Hvis. by apply elem_of_list_to_set.
      * rewrite Hv, Hc, list_to_set_app_L, Hvis. simpl.
        rewrite union_empty_r_L. apply union_comm_L.
  - unfold body. rewrite Hp. done.
Qed.

Lemma passes_inv n st :
  frontier_inv st → frontier_inv (passes w valid limit convert n st).
Proof.
  revert st. induction n as [|n IH]; intros st Hinv; simpl; [done|].
  destruct (loop_cond limit st); [|done].
  apply IH, body_inv, Hinv.
Qed.

Lemma while_loop_passes fuel st st' :
  while_loop w valid limit convert fuel st = Some st' →
  st' = passes w valid limit convert fuel st ∧ loop_cond limit st' = false.
Proof.
  revert st. induction fuel as [|fuel IH]; intros st; simpl.
  - destruct (loop_cond limit st) eqn:Hc; [done|]. by intros [= <-].
  - destruct (loop_cond limit st) eqn:Hc.
    + apply IH.
    + by intros [= <-].
Qed.

Lemma loop_cond_false st :
  loop_cond limit st = false →
  to_visit st = [] ∨ (limit ≤ size (visited st))%nat.
Proof.
  unfold loop_cond. destruct (to_visit st); [by left|].
  intros H%bool_decide_eq_false. right. lia.
Qed.

Lemma loop_cond_true st :
  loop_cond limit st = true →
  to_visit st ≠ [] ∧ (size (visited st) < limit)%nat.
Proof.
  unfold loop_cond. destruct (to_visit st); [done|].
  intros H%bool_decide_eq_true. done.
Qed.

(** The loop ends: a pass either shortens the worklist with the visited
    set unchanged, or adds one URL to the visited set, whose size is
    bounded by the limit. *)
Lemma while_loop_terminates st :
  ∃ fuel st', while_loop w valid limit convert fuel st = Some st'.
Proof.
  remember (limit - size (visited st)) as a eqn:Ha.
  revert st Ha. induction a as [a IHa] using lt_wf_ind. intros st Ha.
  remember (length (to_visit st)) as b eqn:Hb.
  revert st Ha Hb. induction b as [b IHb] using lt_wf_ind. intros st Ha Hb.
  destruct (loop_cond limit st) eqn:Hc.
  - destruct (loop_cond_true _ Hc) as [Hne Hlt].
    destruct (pop (to_visit st)) as [[url rest]|] eqn:Hp;
      [|by apply pop_None in Hp].
    pose proof (pop_Some _ _ _ Hp) as Htv.
    destruct (decide (url ∈ visited st)) as [Hin|Hin].
    + destruct (IHb (length rest)) with (st := with_to_visit rest st)
        as (fuel & st' & Hrun); simpl; try done.
      { rewrite Hb, Htv, length_app. simpl. lia. }
      exists (S fuel), st'. simpl. rewrite Hc.
      by rewrite (body_skip _ _ _ Hp Hin).
    + destruct (body_fresh _ _ _ Hp Hin) as (Hv & _ & _).
      destruct (IHa (limit - size (visited (body w valid convert st))))
        with (st := body w valid convert st) as (fuel & st' & Hrun);
        try done.
      { rewrite Hv, size_union by set_solver. rewrite size_singleton. lia. }
      exists (S fuel), st'. simpl. by rewrite Hc.
  - exists 0, st. simpl. by rewrite Hc.
Qed.

End FrontierFacts.

(** ** The two scripts' conversion blocks keep the frontier *)

Lemma apache_convert_keeps w : keeps_frontier (Apache.convert w).
Proof.
  intros url st. unfold Apache.convert, Apache.fetch_and_cleanup_html.
  destruct (clean_get w url) as [doc|]; simpl.
  - unfold Apache.html_to_pdf.
    destruct (from_string w _ _); simpl; [done|].
    rewrite crawled_app. simpl. by rewrite app_nil_r.
  - rewrite crawled_app. simpl. by rewrite app_nil_r.
Qed.

Lemma mariadb_convert_keeps w : keeps_frontier (Mariadb.convert w).
Proof.
  intros url st. unfold Mariadb.convert.
  destruct (clean_get w url) as [doc|]; simpl.
  - destruct (from_string w _ _); simpl; [done|].
    rewrite crawled_app. simpl. by rewrite app_nil_r.
  - rewrite crawled_app. simpl. by rewrite app_nil_r.
Qed.

Lemma start_inv worklist disk0 : frontier_inv (start worklist disk0).
Proof. split; [apply NoDup_nil_2 | done]. Qed.

Lemma frontier_contract_holds w valid limit convert :
  keeps_frontier convert → frontier_contract w valid limit convert.
Proof.
  intros Hk. split; [|split].
  - intros worklist disk0 n.
    apply (passes_inv w valid limit convert Hk), start_inv.
  - intros st url rest Hp Hin. by apply (body_skip w valid convert st url rest).
  - intros st url rest Hp Hin.
    destruct (body_fresh w valid convert Hk st url rest Hp Hin) as (Hv & Hc & _).
    rewrite Hv, Hc. split; [|done].
    apply elem_of_union. left. by apply elem_of_singleton.
Qed.

(** ** Termination and the two-page cycle *)

Section TwoPageCycle.
Context (w : world) (valid : string → bool) (limit : nat).
Context (convert : string → state → state).
Hypothesis Hconv : keeps_frontier convert.
Context (x y : string) (px py : soup).
Hypothesis Hxy : x ≠ y.
Hypothesis Hpx : crawl_get w x = Some px.
Hypothesis Hpy : crawl_get w y = Some py.
Hypothesis Hlx : map (urljoin w x) (hrefs px) = [y].
Hypothesis Hly : map (urljoin w y) (hrefs py) = [x].
Hypothesis Hvalid : valid y = true.
Hypothesis Hlimit : (2 ≤ limit)%nat.

Lemma two_page_cycle disk0 :
  ∃ st', while_loop w valid limit convert 2 (start [x] disk0) = Some st'
         ∧ crawled (console st') = [x; y]
         ∧ visited st' = {[x; y]}
         ∧ to_visit st' = [].
Proof.
  set (st0 := start [x] disk0).
  set (st1 := body w valid convert st0).
  set (st2 := body w valid convert st1).
  destruct (body_fresh w valid convert Hconv st0 x []) as (Hv1 & Hc1 & Ht1);
    [done|set_solver|].
  fold st1 in Hv1, Hc1, Ht1.
  rewrite Hpx, offer_all_filter, Hlx in Ht1. simpl in Hv1, Hc1, Ht1.
  rewrite filter_cons_True, filter_nil in Ht1
    by (split; [set_solver|done]).
  destruct (body_fresh w valid convert Hconv st1 y []) as (Hv2 & Hc2 & Ht2).
  { by rewrite Ht1. }
  { rewrite Hv1. set_solver. }
  fold st2 in Hv2, Hc2, Ht2.
  rewrite Hpy, offer_all_filter, Hly in Ht2. simpl in Ht2.
  rewrite filter_cons_False, filter_nil in Ht2
    by (intros [Hn _]; apply Hn; rewrite Hv1; set_solver).
  exists st2. split; [|split; [|split]].
  - simpl. fold st0 st1 st2.
    assert (loop_cond limit st0 = true) as ->.
    { unfold loop_cond, st0, start. cbn [to_visit visited].
      apply bool_decide_eq_true. rewrite size_empty. lia. }
    assert (loop_cond limit st1 = true) as ->.
    { unfold loop_cond. rewrite Ht1, Hv1. apply bool_decide_eq_true.
      rewrite union_empty_r_L, size_singleton. lia. }
    assert (loop_cond limit st2 = false) as ->; [|done].
    unfold loop_cond. by rewrite Ht2.
  - by rewrite Hc2, Hc1.
  - rewrite Hv2, Hv1. set_solver.
  - done.
Qed.

End TwoPageCycle.

(** C2. The crawl loop of the Apache script ends on every site and from
    every state: some number of passes brings it to its exit, where the
    worklist is empty or the visited count has reached the limit.  On a site
    where page x links to page y and y links back to x, started at x with a
    limit of at least two, it ends with x and y each crawled once, in that
    order, and nothing left to visit. *)
Theorem crawl_terminates (w : world) (cfg : config) (limit : nat) :
  (∀ st, ∃ fuel st',
      Apache.crawl_loop w cfg limit fuel st = Some st'
      ∧ (to_visit st' = [] ∨ (limit ≤ size (visited st'))%nat))
  ∧ (∀ x y px py disk0,
      x ≠ y →
      crawl_get w x = Some px → crawl_get w y = Some py →
      map (urljoin w x) (hrefs px) = [y] →
      map (urljoin w y) (hrefs py) = [x] →
      is_valid_link cfg y = true →
      (2 ≤ limit)%nat →
      ∃ fuel st',
        Apache.crawl_loop w cfg limit fuel (start [x] disk0) = Some st'
        ∧ crawled (console st') = [x; y]
        ∧ visited st' = {[x; y]}
        ∧ to_visit st' = []).
Proof.
  split.
  - intros st.
    destruct (while_loop_terminates w (is_valid_link cfg) limit
                (Apache.convert w) (apache_convert_keeps w) st)
      as (fuel & st' & Hrun).
    exists fuel, st'. split; [done|].
    apply while_loop_passes in Hrun as [_ Hexit].
    by apply loop_cond_false.
  - intros x y px py disk0 Hxy Hpx Hpy Hlx Hly Hv Hl.
    exists 2.
    by apply (two_page_cycle w (is_valid_link cfg) limit (Apache.convert w)
                (apache_convert_keeps w) x y px py).
Qed.

(** The cycle of two pages on the Apache site, under the script's own
    configuration. *)
Lemma crawl_terminates_witness :
  ∃ fuel st',
    Apache.crawl_loop cycle_site apache_config Apache.CRAWL_LIMIT fuel
      (Apache.initial ∅) = Some st'
    ∧ crawled (console st') = [X; Y]
    ∧ visited st' = {[X; Y]}
    ∧ to_visit st' = [].
Proof.
  apply (proj2 (crawl_terminates cycle_site apache_config Apache.CRAWL_LIMIT)
           X Y (page_with "x" [link Y]) (page_with "y" [link X]) ∅).
  - discriminate.
  - reflexivity.
  - reflexivity.
  - reflexivity.
  - reflexivity.
  - vm_compute. reflexivity.
  - unfold Apache.CRAWL_LIMIT. lia.
Defined.

(** ** The visited set *)

(** C1. In both crawlers, at every point of a run from a fresh frontier over
    any worklist (duplicates included), no URL has been dequeued for
    processing twice and the visited set is exactly the set of URLs dequeued
    for processing; a popped URL that is already visited is dropped and the
    pass does nothing else; a popped URL that is new is in the visited set
    when the pass is over and is announced once, whether the request that
    follows succeeds or raises. *)
Theorem visited_set_idempotent (w : world) (cfg : config) (limit : nat) :
  frontier_contract w (is_valid_link cfg) limit (Apache.convert w)
  ∧ frontier_contract w Mariadb.is_valid_link Mariadb.CRAWL_LIMIT
      (Mariadb.convert w).
Proof.
  split; apply frontier_contract_holds.
  - apply apache_convert_keeps.
  - apply mariadb_convert_keeps.
Qed.

(** On the site whose first page carries the same link twice: X, popped when
    already visited, is dropped; and eight passes over a worklist with
    repeats announce no URL twice. *)
Lemma visited_set_idempotent_witness :
  let st := with_visited {[X]} (start [Y; X] ∅) in
  Apache.crawl_body twice_site apache_config st = with_to_visit [Y] st
  ∧ NoDup (crawled (console
             (passes twice_site (is_valid_link apache_config)
                Apache.CRAWL_LIMIT (Apache.convert twice_site) 8
                (start [Y; X; Y; X; X] ∅)))).
Proof.
  pose proof (visited_set_idempotent twice_site apache_config
                Apache.CRAWL_LIMIT) as [(Hinv & Hskip & _) _].
  split.
  - apply (Hskip _ X [Y]); [reflexivity|].
    change (X ∈ ({[X]} : gset string)).
    apply elem_of_singleton_2. reflexivity.
  - exact (proj1 (Hinv _ _ _)).
Defined.

(** ** Offering links to the frontier *)

(** C8, as the code has it. A link is appended to the worklist exactly when
    its joined URL is not in the visited set and passes the link filter;
    the pending worklist is not consulted.  After a pass that fetched a new
    page, the worklist is what was left after the pop followed by the page's
    links that are unvisited and valid, in page order, repeats included. *)
Theorem offer_appends_unvisited_valid (w : world) (cfg : config)
    (st : state) (url : string) (rest : list string) (page : soup) :
  pop (to_visit st) = Some (url, rest) →
  url ∉ visited st →
  crawl_get w url = Some page →
  (∀ vis href tv,
      offer w (is_valid_link cfg) vis url href tv =
      if decide ((urljoin w url href ∉ vis)
                 ∧ (is_valid_link cfg (urljoin w url href) = true))
      then tv ++ [urljoin w url href] else tv)
  ∧ to_visit (Apache.crawl_body w cfg st) =
      rest ++ filter (λ l, (l ∉ {[url]} ∪ visited st)
                           ∧ (is_valid_link cfg l = true))
                (map (urljoin w url) (hrefs page))
  ∧ to_visit (Mariadb.crawl_body w st) =
      rest ++ filter (λ l, (l ∉ {[url]} ∪ visited st)
                           ∧ (Mariadb.is_valid_link l = true))
                (map (urljoin w url) (hrefs page)).
Proof.
  intros Hp Hin Hget. split; [|split].
  - intros vis href tv. unfold offer.
    destruct (decide _) as [[Hv Hok]|Hno].
    + rewrite bool_decide_eq_false_2 by done. by rewrite Hok.
    + destruct (bool_decide (urljoin w url href ∈ vis)) eqn:Hb; [done|].
      apply bool_decide_eq_false in Hb. simpl.
      destruct (is_valid_link cfg (urljoin w url href)) eqn:Hok; [|done].
      exfalso. by apply Hno.
  - destruct (body_fresh w (is_valid_link cfg) (Apache.convert w)
                (apache_convert_keeps w) st url rest Hp Hin) as (_ & _ & Ht).
    unfold Apache.crawl_body. rewrite Ht, Hget. apply offer_all_filter.
  - destruct (body_fresh w Mariadb.is_valid_link (Mariadb.convert w)
                (mariadb_convert_keeps w) st url rest Hp Hin) as (_ & _ & Ht).
    unfold Mariadb.crawl_body. rewrite Ht, Hget. apply offer_all_filter.
Qed.

Lemma offer_appends_unvisited_valid_witness :
  to_visit (Apache.crawl_body cycle_site apache_config (Apache.initial ∅)) =
    [] ++ filter (λ l, (l ∉ {[X]} ∪ (∅ : gset string))
                       ∧ (is_valid_link apache_config l = true))
            (map (urljoin cycle_site X) (hrefs (page_with "x" [link Y]))).
Proof.
  pose proof (offer_appends_unvisited_valid cycle_site apache_config
                (Apache.initial ∅) X [] (page_with "x" [link Y])
                eq_refl (not_elem_of_empty X) eq_refl) as (_ & H & _).
  exact H.
Defined.

(** C8, as stated, fails: a page that carries the same link twice puts the
    URL on the worklist twice, and a URL that is already pending is appended
    again. *)
Lemma worklist_duplicates_cex :
  to_visit (Apache.crawl_body twice_site apache_config (Apache.initial ∅))
    = [Y; Y]
  ∧ offer twice_site (is_valid_link apache_config) {[X]} X Y [Y] = [Y; Y]
  ∧ ¬ NoDup (to_visit (Apache.crawl_body twice_site apache_config
                         (Apache.initial ∅))).
Proof.
  assert (to_visit (Apache.crawl_body twice_site apache_config
                      (Apache.initial ∅)) = [Y; Y]) as Hty
    by (vm_compute; reflexivity).
  split; [exact Hty|]. split; [vm_compute; reflexivity|].
  rewrite Hty. intros Hnd. apply NoDup_cons in Hnd as [Hnot _].
  apply Hnot. apply list_elem_of_here.
Qed.

(** ** The link filter *)

(** The checks come in the order domain, path prefix, keyword, locale
    segment: each verdict is reached only past the checks before it. *)
Lemma link_check_order cfg href :
  truthy href = true →
  let p := urlparse href in
  link_check cfg href =
    if domain_mismatch cfg p then RejectDomain
    else if negb (doc_path_regex cfg (path p)) then RejectPath
    else if any_keyword (EXCLUDE_KEYWORDS cfg) (lower (path p)) then RejectKeyword
    else if locale_segment cfg (path p) then RejectLocale
    else Accept.
Proof. intros Ht. unfold link_check. by rewrite Ht. Qed.

Lemma is_valid_link_spec cfg href :
  is_valid_link cfg href =
    truthy href
    && negb (domain_mismatch cfg (urlparse href))
    && doc_path_regex cfg (path (urlparse href))
    && negb (any_keyword (EXCLUDE_KEYWORDS cfg) (lower (path (urlparse href))))
    && negb (locale_segment cfg (path (urlparse href))).
Proof.
  unfold is_valid_link, link_check.
  destruct (truthy href); [|done]. simpl.
  destruct (domain_mismatch _ _); [done|]. simpl.
  destruct (doc_path_regex _ _); [|done]. simpl.
  destruct (any_keyword _ _); [done|]. simpl.
  by destruct (locale_segment _ _).
Qed.

(** A path with fewer than three segments always passes the locale check. *)
Lemma locale_segment_short cfg p :
  (length (split "/" (strip "/" p)) < 3)%nat → locale_segment cfg p = false.
Proof.
  intros Hlen. unfold locale_segment.
  destruct (Nat.leb_spec 3 (length (split "/" (strip "/" p)))); [lia|done].
Qed.

(** C3. With allow-pattern [^/docs/current/], domain [example.org] and
    exclude keywords [["faq"]]: [.../docs/current/faq.html] is rejected at
    the keyword check, [.../docs/current/mod/core.html] is accepted,
    [https://other.org/docs/current/x.html] is rejected at the domain check,
    and [.../docs/current/tr/x.html] is rejected at the locale check, its
    third segment being [tr].  The checks apply in the order domain, path
    prefix, keyword, locale: a URL that fails all four is rejected for its
    domain, one that fails the last three for its path, one that fails the
    last two for its keyword. *)
Theorem filter_correctness :
  link_check example_config "https://example.org/docs/current/faq.html"
    = RejectKeyword
  ∧ link_check example_config "https://example.org/docs/current/mod/core.html"
    = Accept
  ∧ link_check example_config "https://other.org/docs/current/x.html"
    = RejectDomain
  ∧ link_check example_config "https://example.org/docs/current/tr/x.html"
    = RejectLocale
  ∧ split "/" (strip "/" (path (urlparse
       "https://example.org/docs/current/tr/x.html"))) !! 2%nat = Some "tr"
  ∧ map (is_valid_link example_config)
      ["https://example.org/docs/current/faq.html";
       "https://example.org/docs/current/mod/core.html";
       "https://other.org/docs/current/x.html";
       "https://example.org/docs/current/tr/x.html"]
    = [false; true; false; false]
  ∧ link_check example_config "https://other.org/manual/tr/faq.html"
    = RejectDomain
  ∧ link_check example_config "https://example.org/manual/tr/faq.html"
    = RejectPath
  ∧ link_check example_config "https://example.org/docs/current/tr/faq.html"
    = RejectKeyword.
Proof. vm_compute. repeat split. Qed.

(** ** The content cleaner *)

(** Induction on a page tree, with the children of an element covered. *)
Lemma node_forall_ind (P : node → Prop) :
  (∀ s, P (Text s)) →
  (∀ nm attrs ch, Forall P ch → P (Elem nm attrs ch)) →
  ∀ n, P n.
Proof.
  intros Htext Helem. fix IH 1. intros [s|nm attrs ch].
  - apply Htext.
  - apply Helem. induction ch as [|c ch IHch]; constructor.
    + apply IH.
    + apply IHch.
Qed.

Lemma find_node_holds p n r : find_node p n = Some r → p r = true.
Proof.
  revert r. induction n as [s|nm attrs ch IHch] using node_forall_ind;
    intros r; simpl.
  - destruct (p (Text s)) eqn:Hp; [|done]. by intros [= <-].
  - destruct (p (Elem nm attrs ch)) eqn:Hp; [by intros [= <-]|]. clear Hp.
    induction IHch as [|c ch Hc _ IH]; [done|].
    destruct (find_node p c) as [r'|] eqn:Hf.
    + intros [= <-]. by apply Hc.
    + apply IH.
Qed.

Lemma find_holds p doc r : find p doc = Some r → p r = true.
Proof.
  induction doc as [|c doc IH]; simpl; [done|].
  destruct (find_node p c) as [r'|] eqn:Hf.
  - intros [= <-]. by apply find_node_holds in Hf.
  - apply IH.
Qed.

Lemma str_node_tag_nonempty t n : is_tag t n = true → str_node n ≠ EmptyString.
Proof. destruct n as [s|nm attrs ch]; [done|]. simpl. done. Qed.

(** C9, as the code has it. After the clutter selectors are removed: if a
    [div#page-content] is left the output is the markup of that region; if
    not and a [body] is left the output is the markup of the body; if neither
    is left the output is the markup of the whole remaining document.  The
    cleaner is a total function, and its output is empty only in the third
    case, when the remaining document has no markup at all. *)
Theorem cleaner_fallback (doc : soup) :
  let remaining := remove_selectors SELECTORS_TO_REMOVE doc in
  (∀ region, find is_page_content remaining = Some region →
     cleanup doc = str_node region ∧ cleanup doc ≠ EmptyString)
  ∧ (find is_page_content remaining = None →
     ∀ b, Dom.body remaining = Some b →
       cleanup doc = str_node b ∧ cleanup doc ≠ EmptyString)
  ∧ (find is_page_content remaining = None → Dom.body remaining = None →
     cleanup doc = str_soup remaining).
Proof.
  intros remaining. unfold cleanup, select_region. fold remaining.
  split; [|split].
  - intros region Hf. rewrite Hf. simpl. split; [done|].
    apply find_holds in Hf. unfold is_page_content in Hf.
    apply andb_prop in Hf as [Htag _].
    by apply (str_node_tag_nonempty "div").
  - intros Hf b Hb. rewrite Hf, Hb. simpl. split; [done|].
    apply find_holds in Hb. by apply (str_node_tag_nonempty "body").
  - intros Hf Hb. by rewrite Hf, Hb.
Qed.

(** A page with a body and no main-content region: the output is the body,
    with the navigation gone. *)
Lemma cleaner_fallback_witness :
  cleanup [Elem "html" [] [Elem "body" [] [Elem "nav" [] []; Text "hello"]]]
    = str_node (Elem "body" [] [Text "hello"])
  ∧ cleanup [Elem "html" [] [Elem "body" [] [Elem "nav" [] []; Text "hello"]]]
    ≠ EmptyString.
Proof.
  apply (proj1 (proj2 (cleaner_fallback
    [Elem "html" [] [Elem "body" [] [Elem "nav" [] []; Text "hello"]]]))).
  - reflexivity.
  - reflexivity.
Defined.

(** C9, as stated, fails: a page that is nothing but clutter, or an empty
    page, is cleaned to the empty string. *)
Lemma cleaner_empty_cex :
  cleanup [Elem "script" [] [Text "var x = 1;"]] = EmptyString
  ∧ cleanup [] = EmptyString.
Proof. split; reflexivity. Qed.

(** ** Rendering failures in the Apache crawler *)

Lemma merge_fold d l pages evs :
  foldl (λ acc f, Apache.merge_append d f acc) (pages, evs) l =
  (pages ++ concat (map (Apache.pages_at d) l),
   evs ++ Apache.merge_errors d l).
Proof.
  revert pages evs. induction l as [|f l IH]; intros pages evs; simpl.
  - by rewrite !app_nil_r.
  - unfold Apache.merge_append at 2. unfold Apache.pages_at at 1. simpl.
    destruct (d !! f) as [[pg|]|]; rewrite IH; simpl;
      by rewrite <- ?app_assoc.
Qed.

Lemma merge_pdfs_spec pdf_list output st :
  disk (Apache.merge_pdfs pdf_list output st) =
    <[output := Pdf (concat (map (Apache.pages_at (disk st)) pdf_list))]> (disk st)
  ∧ console (Apache.merge_pdfs pdf_list output st) =
    console st ++ Apache.merge_errors (disk st) pdf_list
  ∧ pdf_files (Apache.merge_pdfs pdf_list output st) = pdf_files st
  ∧ page_count (Apache.merge_pdfs pdf_list output st) = page_count st.
Proof.
  unfold Apache.merge_pdfs. rewrite merge_fold. simpl. done.
Qed.

(** C10. [html_to_pdf] has no way to fail: a renderer exception ends in a
    printed line.  So when a new page is fetched and cleaned and the
    renderer then fails, the pass still appends the page's output path to
    [pdf_files] and still adds one to [page_count], while the disk is left
    as it was; and the summary line printed after the loop reports
    [page_count] as the number of PDFs created. *)
Theorem failed_render_still_counted (w : world) (cfg : config)
    (st : state) (url : string) (rest : list string) (page doc : soup) :
  pop (to_visit st) = Some (url, rest) →
  url ∉ visited st →
  crawl_get w url = Some page →
  clean_get w url = Some doc →
  from_string w (cleanup doc) (pdf_path Apache.OUTPUT_DIR url) = None →
  let st' := Apache.crawl_body w cfg st in
  pdf_files st' = pdf_files st ++ [pdf_path Apache.OUTPUT_DIR url]
  ∧ page_count st' = S (page_count st)
  ∧ disk st' = disk st
  ∧ console st' = console st
      ++ [EvCrawl url; EvPdfkitError (pdf_path Apache.OUTPUT_DIR url)]
  ∧ ∃ tail, console (Apache.finish st') =
      console st' ++ EvSummary (size (visited st')) (page_count st') :: tail.
Proof.
  intros Hp Hin Hget Hclean Hfail st'.
  assert (st' = incr_page_count (append_pdf (pdf_path Apache.OUTPUT_DIR url)
            (print (EvPdfkitError (pdf_path Apache.OUTPUT_DIR url))
               (with_to_visit
                  (offer_all w (is_valid_link cfg) ({[url]} ∪ visited st)
                     url page rest)
                  (print (EvCrawl url)
                     (with_visited ({[url]} ∪ visited st)
                        (with_to_visit rest st))))))) as Hst.
  { unfold st', Apache.crawl_body, body. rewrite Hp. simpl.
    rewrite bool_decide_eq_false_2 by done. rewrite Hget. simpl.
    unfold Apache.convert, Apache.fetch_and_cleanup_html.
    rewrite Hclean. simpl. unfold Apache.html_to_pdf. by rewrite Hfail. }
  split; [by rewrite Hst|]. split; [by rewrite Hst|].
  split; [by rewrite Hst|]. split.
  - rewrite Hst. simpl. by rewrite <- app_assoc.
  - unfold Apache.finish.
    destruct (Apache.CREATE_SINGLE_PDF && _).
    + eexists. cbn [print console].
      destruct (merge_pdfs_spec
        (pdf_files (print (EvMerging
            (length (pdf_files (print (EvSummary (size (visited st'))
               (page_count st')) st'))) Apache.merged_pdf_path)
            (print (EvSummary (size (visited st')) (page_count st')) st')))
        Apache.merged_pdf_path
        (print (EvMerging
            (length (pdf_files (print (EvSummary (size (visited st'))
               (page_count st')) st'))) Apache.merged_pdf_path)
            (print (EvSummary (size (visited st')) (page_count st')) st')))
        as (_ & -> & _).
      cbn [print console]. rewrite <- !app_assoc. reflexivity.
    + eexists. simpl. reflexivity.
Qed.

(** The single page of the site is fetched and cleaned, wkhtmltopdf fails on
    it, and the run still counts one PDF and lists its path. *)
Lemma failed_render_still_counted_witness :
  let st' := Apache.crawl_body lone_broken_site apache_config
               (Apache.initial ∅) in
  pdf_files st' = [] ++ [pdf_path Apache.OUTPUT_DIR X]
  ∧ page_count st' = 1%nat
  ∧ disk st' = ∅
  ∧ console st' = [] ++ [EvCrawl X; EvPdfkitError (pdf_path Apache.OUTPUT_DIR X)]
  ∧ ∃ tail, console (Apache.finish st') =
      console st' ++ EvSummary (size (visited st')) (page_count st') :: tail.
Proof.
  apply (failed_render_still_counted lone_broken_site apache_config
           (Apache.initial ∅) X [] (page_with "x" []) (page_with "x" [])).
  - reflexivity.
  - apply not_elem_of_empty.
  - reflexivity.
  - reflexivity.
  - vm_compute. reflexivity.
Defined.

(** ** From the crawl to the merged document *)


Lemma finish_nothing st :
  pdf_files st = [] →
  disk (Apache.finish st) = disk st.
Proof.
  intros He. unfold Apache.finish. cbn [print pdf_files].
  rewrite He. by rewrite bool_decide_eq_false_2, andb_false_r by (intros H; by apply H).
Qed.

Section RunOutcome.
Context (w : world) (cfg : config) (limit : nat).
Context (disk0 : gmap string file).

Local Abbreviation out_path := (pdf_path Apache.OUTPUT_DIR).

Lemma converted_snoc urls u :
  Apache.converted w (urls ++ [u]) =
  Apache.converted w urls ++
    (if decide (is_Some (crawl_get w u) ∧ is_Some (clean_get w u))
     then [u] else []).
Proof.
  unfold Apache.converted. by rewrite filter_app.
Qed.

Lemma crawl_body_outcome st :
  Apache.outcome_inv w disk0 st →
  Apache.outcome_inv w disk0 (Apache.crawl_body w cfg st).
Proof.
  intros (Hf & Hd & Hn). unfold Apache.outcome_inv, Apache.crawl_body, body.
  destruct (pop (to_visit st)) as [[url rest]|]; [|done]. simpl.
  destruct (bool_decide (url ∈ visited st)); [done|].
  destruct (crawl_get w url) as [page|] eqn:Hget; simpl.
  - unfold Apache.convert, Apache.fetch_and_cleanup_html.
    destruct (clean_get w url) as [doc|] eqn:Hclean; simpl.
    + unfold Apache.html_to_pdf.
      destruct (from_string w (cleanup doc) (out_path url)) as [pages|] eqn:Hr;
        simpl; rewrite ?crawled_app; simpl; rewrite ?app_nil_r;
        rewrite converted_snoc, Hget, Hclean;
        rewrite decide_True by (split; eauto);
        rewrite map_app, foldl_app, length_app; simpl;
        unfold Apache.apply_render at 1, Apache.render_of,
          Apache.fetch_and_cleanup_html;
        rewrite Hclean; simpl; rewrite Hr, <- Hf, <- Hd, Hn;
        (split; [done|]); (split; [done|lia]).
    + rewrite !crawled_app. simpl. rewrite app_nil_r.
      rewrite converted_snoc, Hget, Hclean.
      rewrite decide_False by (intros [_ [? ?]]; done).
      by rewrite app_nil_r.
  - rewrite !crawled_app. simpl. rewrite app_nil_r.
    rewrite converted_snoc, Hget.
    rewrite decide_False by (intros [[? ?] _]; done).
    by rewrite app_nil_r.
Qed.





End RunOutcome.

Lemma initial_outcome w disk0 : Apache.outcome_inv w disk0 (Apache.initial disk0).
Proof. by split. Qed.




(** ** The resumable download flow *)

Section Bind9Facts.
Import Bind9.
Context (net : api).






Lemma article_id_of_frame st st' slug :
  slug_cache st' = slug_cache st → article_id_of st' slug = article_id_of st slug.
Proof. unfold article_id_of. by intros ->. Qed.

End Bind9Facts.

Lemma poll_from_first net task_id attempt remaining k ts :
  (attempt ≤ k < attempt + remaining)%nat →
  Bind9.get_status net task_id k = Bind9.Ok (Some ts) →
  Bind9.isComplete ts = true →
  (∀ j, (attempt ≤ j < k)%nat →
        Bind9.completes (Bind9.get_status net task_id j) = false) →
  Bind9.poll_from net task_id attempt remaining = Some ts.
Proof.
  revert attempt. induction remaining as [|r IH]; intros attempt Hk Hget Hc Hno;
    [lia|].
  cbn [Bind9.poll_from].
  destruct (decide (attempt = k)) as [->|Hne].
  - by rewrite Hget, Hc.
  - pose proof (Hno attempt ltac:(lia)) as H0.
    assert (Bind9.poll_from net task_id (S attempt) r = Some ts) as Hrec.
    { apply IH; [lia|done|done|]. intros j Hj. apply Hno. lia. }
    destruct (Bind9.get_status net task_id attempt) as [| |[ts'|]];
      try exact Hrec.
    cbn [Bind9.completes] in H0. rewrite H0. exact Hrec.
Qed.

(** What the service has to answer for a generation to yield a URL:
    the request is accepted with a task identifier, attempt [k] is the first
    of the budget to report completion, and the completed status carries a
    [url] item with a non-empty value. *)
Lemma generate_returns_url net art_id slug task_id k ts url :
  Bind9.post_generate net art_id slug = Bind9.Ok (Some task_id) →
  truthy task_id = true →
  (1 ≤ k ≤ Bind9.max_tries)%nat →
  Bind9.get_status net task_id k = Bind9.Ok (Some ts) →
  Bind9.isComplete ts = true →
  (∀ j, (1 ≤ j < k)%nat →
        Bind9.completes (Bind9.get_status net task_id j) = false) →
  Bind9.url_of_result (Bind9.result ts) = Some (Some url) →
  Bind9.generate_single_article_pdf net art_id slug = Some url.
Proof.
  intros Hpost Htid Hk Hget Hc Hno Hurl.
  assert (Bind9.poll_task_status net task_id = Some ts) as Hpoll.
  { unfold Bind9.poll_task_status.
    apply (poll_from_first net task_id 1 Bind9.max_tries k ts); try done.
    lia. }
  unfold Bind9.generate_single_article_pdf. rewrite Hpost.
  cbv beta iota. rewrite Htid. change (negb true) with false.
  cbv beta iota. rewrite Hpoll, Hc. change (negb true) with false.
  cbv beta iota. rewrite Hurl. reflexivity.
Qed.

(** C6. When a slug that is not marked failed has an article identifier,
    the tracker records a file for that identifier and the file is not on
    disk, the download step does not skip the slug: it drops the tracker
    entry, says so, and makes a fresh generation attempt.  Afterwards the
    identifier is either untracked again or tracked with a file that is on
    disk.  And the attempt is a real one: when the service accepts the
    request, reports completion within the polling budget with a [url] item
    and serves that URL, the bytes served are on disk under [<slug>.pdf],
    the tracker and the saved tracker record that name for the identifier,
    and the success is printed. *)
Theorem cache_resume_missing_file (net : Bind9.api) (st : Bind9.state)
    (slug art_id pdf_file : string) :
  slug ∉ Bind9.failed_slugs st →
  Bind9.article_id_of st slug = Some art_id →
  Bind9.pdf_tracker st !! art_id = Some pdf_file →
  Bind9.isfile (Bind9.files st) pdf_file = false →
  let st' := Bind9.download_step net slug st in
  st' = Bind9.attempt_generation net slug art_id
          (Bind9.with_tracker (delete art_id (Bind9.pdf_tracker st))
             (Bind9.say (Bind9.EvTrackerFileMissing art_id pdf_file) st))
  ∧ Bind9.EvTrackerFileMissing art_id pdf_file ∈ Bind9.out st'
  ∧ Bind9.EvAttempt slug art_id ∈ Bind9.out st'
  ∧ (Bind9.pdf_tracker st' !! art_id = None
     ∨ ∃ out_name, Bind9.pdf_tracker st' !! art_id = Some out_name
                   ∧ Bind9.isfile (Bind9.files st') out_name = true)
  ∧ (∀ task_id k ts url content,
       Bind9.post_generate net art_id slug = Bind9.Ok (Some task_id) →
       truthy task_id = true →
       (1 ≤ k ≤ Bind9.max_tries)%nat →
       Bind9.get_status net task_id k = Bind9.Ok (Some ts) →
       Bind9.isComplete ts = true →
       (∀ j, (1 ≤ j < k)%nat →
             Bind9.completes (Bind9.get_status net task_id j) = false) →
       Bind9.url_of_result (Bind9.result ts) = Some (Some url) →
       truthy url = true →
       Bind9.get_pdf net url = Bind9.Ok content →
       Bind9.files st' !! (slug ++ ".pdf")%string = Some content
       ∧ Bind9.pdf_tracker st' !! art_id = Some (slug ++ ".pdf")%string
       ∧ Bind9.tracker_file st' = Bind9.pdf_tracker st'
       ∧ Bind9.EvSuccess slug (slug ++ ".pdf")%string ∈ Bind9.out st')
  ∧ (Bind9.generate_single_article_pdf net art_id slug = None →
     Bind9.pdf_tracker st' !! art_id = None
     ∧ Bind9.tracker_file st' !! art_id = None
     ∧ Bind9.files st' = Bind9.files st).
Proof.
  intros Hnf Hid Htr Hmiss st'.
  assert (st' = Bind9.attempt_generation net slug art_id
            (Bind9.with_tracker (delete art_id (Bind9.pdf_tracker st))
               (Bind9.say (Bind9.EvTrackerFileMissing art_id pdf_file) st)))
    as Hst.
  { unfold st', Bind9.download_step.
    rewrite bool_decide_eq_false_2 by done. by rewrite Hid, Htr, Hmiss. }
  split; [done|]. rewrite Hst. clear Hst st'.
  split; [|split; [|split; [|split]]].
  - unfold Bind9.attempt_generation.
    destruct (Bind9.generate_single_article_pdf net art_id slug) as [u|];
      [destruct (truthy u)|]; try (simpl; set_solver).
    unfold Bind9.download_pdf_file.
    destruct (Bind9.get_pdf net u); simpl; set_solver.
  - unfold Bind9.attempt_generation.
    destruct (Bind9.generate_single_article_pdf net art_id slug) as [u|];
      [destruct (truthy u)|]; try (simpl; set_solver).
    unfold Bind9.download_pdf_file.
    destruct (Bind9.get_pdf net u); simpl; set_solver.
  - unfold Bind9.attempt_generation.
    destruct (Bind9.generate_single_article_pdf net art_id slug) as [u|];
      [destruct (truthy u)|];
      try (simpl; left; apply lookup_delete_eq).
    unfold Bind9.download_pdf_file.
    destruct (Bind9.get_pdf net u) as [|code|content]; simpl;
      try (left; apply lookup_delete_eq).
    right. exists (slug ++ ".pdf")%string.
    split; [apply lookup_insert_eq|].
    unfold Bind9.isfile. apply bool_decide_eq_true.
    rewrite lookup_insert_eq. by eexists.
  - intros task_id k ts url content Hpost Htid Hk Hget Hc Hno Hurl Hu Hpdf.
    pose proof (generate_returns_url net art_id slug task_id k ts url
                  Hpost Htid Hk Hget Hc Hno Hurl) as Hgen.
    unfold Bind9.attempt_generation. rewrite Hgen, Hu.
    unfold Bind9.download_pdf_file. rewrite Hpdf. simpl.
    rewrite !lookup_insert_eq. repeat split; try done.
    rewrite !elem_of_app, !list_elem_of_singleton. auto.
  - intros Hgen. unfold Bind9.attempt_generation. rewrite Hgen. simpl.
    by rewrite lookup_delete_eq.
Qed.

(** The tracker names a file that is gone; the service completes at the
    third poll and serves two pages, which end up on disk under the slug's
    name, tracked and saved. *)
Lemma cache_resume_missing_file_witness :
  let st' := Bind9.download_step done_at_third slug1 stale_state in
  Bind9.EvAttempt slug1 art1 ∈ Bind9.out st'
  ∧ Bind9.files st' !! (slug1 ++ ".pdf")%string
      = Some (Pdf ["page 1"; "page 2"])
  ∧ Bind9.pdf_tracker st' !! art1 = Some (slug1 ++ ".pdf")%string
  ∧ Bind9.tracker_file st' = Bind9.pdf_tracker st'
  ∧ Bind9.EvSuccess slug1 (slug1 ++ ".pdf")%string ∈ Bind9.out st'.
Proof.
  intros st'.
  pose proof (cache_resume_missing_file done_at_third stale_state slug1 art1
                "aa-01310.pdf"
                (not_elem_of_empty slug1) eq_refl eq_refl eq_refl) as H.
  cbv zeta in H. fold st' in H.
  destruct H as (_ & _ & Hatt & _ & Hok & _).
  split; [exact Hatt|].
  apply (Hok task1 3%nat
           {| Bind9.isComplete := true;
              Bind9.result :=
                [{| Bind9.item_name := Some "url";
                    Bind9.item_value := Some "https://cdn.example/a.pdf" |}] |}
           "https://cdn.example/a.pdf" (Pdf ["page 1"; "page 2"])).
  - reflexivity.
  - reflexivity.
  - unfold Bind9.max_tries. lia.
  - reflexivity.
  - reflexivity.
  - intros j Hj. assert (j = 1 ∨ j = 2)%nat as [-> | ->] by lia; reflexivity.
  - reflexivity.
  - reflexivity.
  - reflexivity.
Defined.



(** ** Merging when nothing can be appended *)

Lemma bind9_merge_step_no_pages st slug acc :
  (∀ art p pages,
      Bind9.article_id_of st slug = Some art →
      Bind9.pdf_tracker st !! art = Some p →
      Bind9.files st !! p ≠ Some (Pdf pages)) →
  Bind9.merger_pages (Bind9.merge_step st slug acc) = Bind9.merger_pages acc.
Proof.
  intros Hno. unfold Bind9.merge_step.
  destruct (bool_decide (slug ∈ Bind9.failed_slugs st)); [done|].
  destruct (Bind9.article_id_of st slug) as [art|] eqn:Hid; [|done].
  destruct (Bind9.pdf_tracker st !! art) as [p|] eqn:Htr; [|done].
  destruct (truthy p); [|done]. simpl.
  destruct (Bind9.files st !! p) as [[pages|]|] eqn:Hf; try done.
  by destruct (Hno art p pages).
Qed.

Lemma bind9_merge_loop_no_pages slugs st :
  (∀ slug art p pages,
      slug ∈ slugs →
      Bind9.article_id_of st slug = Some art →
      Bind9.pdf_tracker st !! art = Some p →
      Bind9.files st !! p ≠ Some (Pdf pages)) →
  Bind9.merger_pages (Bind9.merge_loop slugs st) = [].
Proof.
  intros Hno. unfold Bind9.merge_loop.
  assert (∀ acc, Bind9.merger_pages acc = [] →
            Bind9.merger_pages
              (foldl (λ a slug, Bind9.merge_step st slug a) acc slugs) = [])
    as Hgen.
  { induction slugs as [|slug slugs IH]; intros acc Hacc; [done|]. simpl.
    apply IH.
    - intros s a p pg Hs. apply Hno. by right.
    - rewrite bind9_merge_step_no_pages; [done|].
      intros a p pg. apply Hno. by left. }
  by apply Hgen.
Qed.

Lemma apache_no_pages d pdf_list :
  (∀ f pages, f ∈ pdf_list → d !! f ≠ Some (Pdf pages)) →
  concat (map (Apache.pages_at d) pdf_list) = [].
Proof.
  induction pdf_list as [|f l IH]; intros Hno; [done|]. simpl.
  rewrite IH by (intros f' pg Hf'; apply Hno; by right).
  unfold Apache.pages_at.
  destruct (d !! f) as [[pg|]|] eqn:Hf; try done.
  destruct (Hno f pg); [by left|done].
Qed.

(** C5, as the code has it. In the resumable script, when no slug's tracked
    file is a PDF that can be read, Step C writes no merged file: the disk
    is as before and the step ends on the line saying that nothing was
    appended.  The Apache merger is different: [merge_pdfs] writes its output
    whenever it is called, with no pages when no input could be appended;
    [main] leaves the merge out only when the manifest itself is empty. *)
Theorem merge_nothing_appendable :
  (∀ (slugs : list string) (st : Bind9.state),
      (∀ slug art p pages,
          slug ∈ slugs →
          Bind9.article_id_of st slug = Some art →
          Bind9.pdf_tracker st !! art = Some p →
          Bind9.files st !! p ≠ Some (Pdf pages)) →
      Bind9.files (Bind9.step_C slugs st) = Bind9.files st
      ∧ Bind9.out (Bind9.step_C slugs st) =
          Bind9.merge_out (Bind9.merge_loop slugs st)
            ++ [Bind9.EvNothingAppended])
  ∧ (∀ (pdf_list : list string) (output_pdf : string) (st : state),
      (∀ f pages, f ∈ pdf_list → disk st !! f ≠ Some (Pdf pages)) →
      disk (Apache.merge_pdfs pdf_list output_pdf st) =
        <[output_pdf := Pdf []]> (disk st))
  ∧ (∀ st : state, pdf_files st = [] → disk (Apache.finish st) = disk st).
Proof.
  split; [|split].
  - intros slugs st Hno. unfold Bind9.step_C.
    by rewrite (bind9_merge_loop_no_pages slugs st Hno).
  - intros pdf_list output_pdf st Hno.
    destruct (merge_pdfs_spec pdf_list output_pdf st) as [-> _].
    by rewrite (apache_no_pages _ _ Hno).
  - apply finish_nothing.
Qed.

(** The one tracked file of the resumable script is on disk but unreadable:
    Step C leaves the disk alone and reports that nothing was appended. *)
Lemma merge_nothing_appendable_witness :
  Bind9.files (Bind9.step_C [slug1] unreadable_state)
    = Bind9.files unreadable_state
  ∧ Bind9.out (Bind9.step_C [slug1] unreadable_state) =
      Bind9.merge_out (Bind9.merge_loop [slug1] unreadable_state)
        ++ [Bind9.EvNothingAppended].
Proof.
  apply (proj1 merge_nothing_appendable [slug1] unreadable_state).
  intros slug art p pages Hs Hid Htr.
  apply list_elem_of_singleton in Hs. subst slug.
  assert (Bind9.article_id_of unreadable_state slug1 = Some art1) as Hid'
    by (vm_compute; reflexivity).
  rewrite Hid' in Hid. injection Hid as <-.
  assert (Bind9.pdf_tracker unreadable_state !! art1 = Some "aa-01310.pdf")
    as Htr' by (vm_compute; reflexivity).
  rewrite Htr' in Htr. injection Htr as <-.
  assert (Bind9.files unreadable_state !! "aa-01310.pdf" = Some Unreadable)
    as -> by (vm_compute; reflexivity).
  discriminate.
Defined.

(** C5, as stated, fails for the Apache merger: on a run whose only page
    could not be rendered, the one input of the manifest cannot be appended,
    and a merged file, with no pages, is written all the same. *)
Lemma apache_writes_empty_merge_cex :
  ∃ st',
    Apache.main lone_broken_site apache_config Apache.CRAWL_LIMIT 1 ∅ = Some st'
    ∧ pdf_files st' = [pdf_path Apache.OUTPUT_DIR X]
    ∧ disk st' !! pdf_path Apache.OUTPUT_DIR X = None
    ∧ console st' =
        [EvCrawl X; EvPdfkitError (pdf_path Apache.OUTPUT_DIR X);
         EvSummary 1 1; EvMerging 1 Apache.merged_pdf_path;
         EvMergeError (pdf_path Apache.OUTPUT_DIR X); EvMergeComplete]
    ∧ disk st' !! Apache.merged_pdf_path = Some (Pdf []).
Proof.
  eexists. split; [vm_compute; reflexivity|].
  split; [vm_compute; reflexivity|].
  split; [vm_compute; reflexivity|].
  split; vm_compute; reflexivity.
Qed.

(* ===================================================================== *)
(** * Further properties of the three scripts *)
(* ===================================================================== *)

(** ** The frontier over a whole run *)

Section RunFacts.
Context (w : world) (valid : string → bool) (limit : nat).
Context (convert : string → state → state).
Hypothesis Hconv : keeps_frontier convert.

Lemma body_visited_mono st : visited st ⊆ visited (body w valid convert st).
Proof.
  destruct (pop (to_visit st)) as [[url rest]|] eqn:Hp.
  - destruct (decide (url ∈ visited st)) as [Hin|Hin].
    + by rewrite (body_skip w valid convert st url rest Hp Hin).
    + destruct (body_fresh w valid convert Hconv st url rest Hp Hin)
        as (-> & _ & _).
      apply union_subseteq_r.
  - unfold body. by rewrite Hp.
Qed.

Lemma passes_visited_mono n st :
  visited st ⊆ visited (passes w valid limit convert n st).
Proof.
  revert st. induction n as [|n IH]; intros st; simpl; [done|].
  destruct (loop_cond limit st); [|done].
  etrans; [apply body_visited_mono|apply IH].
Qed.

Lemma body_size_bound st :
  loop_cond limit st = true →
  (size (visited (body w valid convert st)) ≤ limit)%nat.
Proof.
  intros [_ Hlt]%loop_cond_true.
  destruct (pop (to_visit st)) as [[url rest]|] eqn:Hp.
  - destruct (decide (url ∈ visited st)) as [Hin|Hin].
    + rewrite (body_skip w valid convert st url rest Hp Hin). simpl. lia.
    + destruct (body_fresh w valid convert Hconv st url rest Hp Hin)
        as (-> & _ & _).
      rewrite size_union, size_singleton by (apply disjoint_singleton_l; done).
      lia.
  - unfold body. rewrite Hp. lia.
Qed.

Lemma passes_size_bound n st :
  (size (visited st) ≤ limit)%nat →
  (size (visited (passes w valid limit convert n st)) ≤ limit)%nat.
Proof.
  revert st. induction n as [|n IH]; intros st Hle; simpl; [done|].
  destruct (loop_cond limit st) eqn:Hc; [|done].
  apply IH. by apply body_size_bound.
Qed.

Lemma body_inside_filter worklist st :
  inside_filter valid worklist st →
  inside_filter valid worklist (body w valid convert st).
Proof.
  intros [Htv Hcr].
  destruct (pop (to_visit st)) as [[url rest]|] eqn:Hp.
  - pose proof (pop_Some _ _ _ Hp) as Heq.
    assert (∀ u, u ∈ rest → u ∈ worklist ∨ valid u = true) as Hrest.
    { intros u Hu. apply Htv. rewrite Heq. apply elem_of_app. by left. }
    assert (url ∈ worklist ∨ valid url = true) as Hurl.
    { apply Htv. rewrite Heq. apply elem_of_app. right.
      by apply list_elem_of_singleton. }
    destruct (decide (url ∈ visited st)) as [Hin|Hin].
    + rewrite (body_skip w valid convert st url rest Hp Hin). by split.
    + destruct (body_fresh w valid convert Hconv st url rest Hp Hin)
        as (_ & Hc & Ht).
      split.
      * intros u. rewrite Ht. destruct (crawl_get w url) as [page|]; [|auto].
        rewrite offer_all_filter, elem_of_app, list_elem_of_filter.
        intros [Hu|[[_ Hv] _]]; auto.
      * intros u. rewrite Hc, elem_of_app, list_elem_of_singleton.
        intros [Hu| ->]; auto.
  - unfold body. rewrite Hp. by split.
Qed.

Lemma passes_inside_filter worklist n st :
  inside_filter valid worklist st →
  inside_filter valid worklist (passes w valid limit convert n st).
Proof.
  revert st. induction n as [|n IH]; intros st Ha; simpl; [done|].
  destruct (loop_cond limit st); [|done].
  by apply IH, body_inside_filter.
Qed.

End RunFacts.

Lemma start_inside_filter valid worklist disk0 :
  inside_filter valid worklist (start worklist disk0).
Proof.
  split; simpl; [by left|]. intros u Hu. by apply elem_of_nil in Hu.
Qed.

Lemma size_list_to_set_NoDup (l : list string) :
  NoDup l → size (list_to_set l : gset string) = length l.
Proof.
  induction 1 as [|x l Hx Hnd IH].
  - change (list_to_set [] : gset string) with (∅ : gset string).
    by rewrite size_empty.
  - change (list_to_set (x :: l) : gset string)
      with ({[x]} ∪ list_to_set l : gset string).
    rewrite size_union, size_singleton, IH; [done|].
    apply disjoint_singleton_l. by rewrite elem_of_list_to_set.
Qed.

(** X1. In both crawlers the visited set only grows over a run, and a run
    from a fresh frontier never announces more pages than the crawl limit:
    the number of [[Crawl]] lines equals the size of the visited set and is
    at most the limit, whatever the site looks like. *)
Theorem crawl_bounded_by_limit (w : world) (cfg : config) (limit : nat)
    (worklist : list string) (disk0 : gmap string file) (n : nat) :
  let a := passes w (is_valid_link cfg) limit (Apache.convert w) n
             (start worklist disk0) in
  let m := passes w Mariadb.is_valid_link Mariadb.CRAWL_LIMIT
             (Mariadb.convert w) n (start worklist disk0) in
  (length (crawled (console a)) = size (visited a)
   ∧ (length (crawled (console a)) ≤ limit)%nat
   ∧ ∀ k, visited a ⊆ visited
        (passes w (is_valid_link cfg) limit (Apache.convert w) k a))
  ∧ (length (crawled (console m)) = size (visited m)
     ∧ (length (crawled (console m)) ≤ Mariadb.CRAWL_LIMIT)%nat
     ∧ ∀ k, visited m ⊆ visited
          (passes w Mariadb.is_valid_link Mariadb.CRAWL_LIMIT
             (Mariadb.convert w) k m)).
Proof.
  intros a m.
  assert (∀ valid lim convert, keeps_frontier convert →
    let s := passes w valid lim convert n (start worklist disk0) in
    length (crawled (console s)) = size (visited s)
    ∧ (length (crawled (console s)) ≤ lim)%nat
    ∧ ∀ k, visited s ⊆ visited (passes w valid lim convert k s)) as Hgen.
  { intros valid lim convert Hk s.
    destruct (passes_inv w valid lim convert Hk n (start worklist disk0)
                (start_inv worklist disk0)) as [Hnd Hv].
    fold s in Hnd, Hv.
    assert (length (crawled (console s)) = size (visited s)) as Hlen.
    { by rewrite Hv, size_list_to_set_NoDup. }
    split; [done|]. split.
    - rewrite Hlen. apply (passes_size_bound w valid lim convert Hk).
      unfold start. cbn [visited]. rewrite size_empty. lia.
    - intros k. by apply passes_visited_mono. }
  split.
  - apply Hgen, apache_convert_keeps.
  - apply Hgen, mariadb_convert_keeps.
Qed.

(** X2. A crawler never processes a page from outside the filter: every URL
    announced in a run, and every URL waiting on the worklist, either was on
    the worklist the run started with or passed [is_valid_link]. *)
Theorem crawl_stays_inside_filter (w : world) (cfg : config) (limit : nat)
    (worklist : list string) (disk0 : gmap string file) (n : nat) (u : string) :
  (u ∈ crawled (console (passes w (is_valid_link cfg) limit
                           (Apache.convert w) n (start worklist disk0)))
   ∨ u ∈ to_visit (passes w (is_valid_link cfg) limit
                     (Apache.convert w) n (start worklist disk0))) →
  u ∈ worklist ∨ is_valid_link cfg u = true.
Proof.
  intros Hu.
  destruct (passes_inside_filter w (is_valid_link cfg) limit (Apache.convert w)
              (apache_convert_keeps w) worklist n (start worklist disk0)
              (start_inside_filter _ worklist disk0)) as [Htv Hcr].
  destruct Hu; auto.
Qed.

Lemma crawl_stays_inside_filter_witness :
  Y ∈ [X] ∨ is_valid_link apache_config Y = true.
Proof.
  apply (crawl_stays_inside_filter cycle_site apache_config
           Apache.CRAWL_LIMIT [X] ∅ 2 Y).
  left. vm_compute. apply list_elem_of_further, list_elem_of_here.
Defined.

(** ** What the summary and the manifest count *)

Lemma passes_outcome w cfg limit disk0 n st :
  Apache.outcome_inv w disk0 st →
  Apache.outcome_inv w disk0
    (passes w (is_valid_link cfg) limit (Apache.convert w) n st).
Proof.
  revert st. induction n as [|n IH]; intros st Hinv; simpl; [done|].
  destruct (loop_cond limit st); [|done].
  apply IH. by apply (crawl_body_outcome w cfg disk0).
Qed.

(** X3. At every point of a run of the Apache crawler, [page_count] is the
    length of the merge manifest, the manifest lists the output paths of the
    announced pages for which both requests were answered, in the order
    announced, and [page_count] never exceeds the number of pages visited:
    the summary cannot report more PDFs than pages. *)
Theorem summary_counts (w : world) (cfg : config) (limit : nat)
    (disk0 : gmap string file) (n : nat) :
  let st := passes w (is_valid_link cfg) limit (Apache.convert w) n
              (Apache.initial disk0) in
  page_count st = length (pdf_files st)
  ∧ pdf_files st = map (pdf_path Apache.OUTPUT_DIR)
                     (Apache.converted w (crawled (console st)))
  ∧ (page_count st ≤ size (visited st))%nat.
Proof.
  intros st.
  destruct (passes_outcome w cfg limit disk0 n (Apache.initial disk0)
              (initial_outcome w disk0)) as (Hf & _ & Hn).
  fold st in Hf, Hn.
  destruct (passes_inv w (is_valid_link cfg) limit (Apache.convert w)
              (apache_convert_keeps w) n (Apache.initial disk0)
              (start_inv [Apache.START_URL] disk0)) as [Hnd Hv].
  fold st in Hnd, Hv.
  split; [by rewrite Hn, Hf, length_map|]. split; [done|].
  rewrite Hn, Hv, size_list_to_set_NoDup by done.
  apply length_filter.
Qed.

(** ** [mariadb_pdf.py]: a failed render is not listed *)

Lemma mariadb_convert_manifest w url st :
  manifest_on_disk st → manifest_on_disk (Mariadb.convert w url st).
Proof.
  intros Hm. unfold Mariadb.convert.
  destruct (clean_get w url) as [doc|]; simpl; [|done].
  destruct (from_string w _ _) as [pages|]; simpl; [|done].
  intros p. simpl. rewrite elem_of_app, list_elem_of_singleton.
  intros [Hp| ->].
  - destruct (decide (pdf_path Mariadb.OUTPUT_DIR url = p)) as [<-|Hne].
    + exists pages. apply lookup_insert_eq.
    + rewrite lookup_insert_ne by done. by apply Hm.
  - exists pages. apply lookup_insert_eq.
Qed.

Lemma mariadb_body_manifest w st :
  manifest_on_disk st → manifest_on_disk (Mariadb.crawl_body w st).
Proof.
  intros Hm. unfold Mariadb.crawl_body, body.
  destruct (pop (to_visit st)) as [[url rest]|]; [|done]. simpl.
  destruct (bool_decide (url ∈ visited st)); [done|].
  destruct (crawl_get w url) as [page|]; [|done].
  by apply mariadb_convert_manifest.
Qed.

(** X4. In [mariadb_pdf.py] the renderer's exception reaches [main], so at
    every point of a run over a disk with no manifest yet, each path on
    [pdf_files] holds a readable PDF: a merge over this manifest has no
    input it cannot append. *)
Theorem mariadb_manifest_readable (w : world) (worklist : list string)
    (disk0 : gmap string file) (n : nat) (p : string) :
  p ∈ pdf_files (passes w Mariadb.is_valid_link Mariadb.CRAWL_LIMIT
                   (Mariadb.convert w) n (start worklist disk0)) →
  ∃ pages,
    disk (passes w Mariadb.is_valid_link Mariadb.CRAWL_LIMIT
            (Mariadb.convert w) n (start worklist disk0)) !! p
    = Some (Pdf pages).
Proof.
  assert (∀ st, manifest_on_disk st →
            manifest_on_disk (passes w Mariadb.is_valid_link
              Mariadb.CRAWL_LIMIT (Mariadb.convert w) n st)) as Hgen.
  { induction n as [|k IH]; intros st Hm; simpl; [done|].
    destruct (loop_cond Mariadb.CRAWL_LIMIT st); [|done].
    apply IH. by apply mariadb_body_manifest. }
  apply Hgen. intros q Hq. by apply elem_of_nil in Hq.
Qed.

(** X5. In [mariadb_pdf.py], when a new page is fetched and cleaned and the
    renderer then fails, the pass leaves the manifest and the disk as they
    were and prints one error line for the page. *)
Theorem mariadb_failed_render_not_listed (w : world) (st : state)
    (url : string) (rest : list string) (page doc : soup) :
  pop (to_visit st) = Some (url, rest) →
  url ∉ visited st →
  crawl_get w url = Some page →
  clean_get w url = Some doc →
  from_string w (mariadb_cleanup doc) (pdf_path Mariadb.OUTPUT_DIR url) = None →
  let st' := Mariadb.crawl_body w st in
  pdf_files st' = pdf_files st
  ∧ disk st' = disk st
  ∧ console st' = console st ++ [EvCrawl url; EvConvertError url].
Proof.
  intros Hp Hin Hget Hclean Hfail st'.
  unfold st', Mariadb.crawl_body, body. rewrite Hp. simpl.
  rewrite bool_decide_eq_false_2 by done. rewrite Hget. simpl.
  unfold Mariadb.convert. rewrite Hclean. simpl. rewrite Hfail. simpl.
  by rewrite <- app_assoc.
Qed.

Lemma mariadb_manifest_readable_witness :
  ∃ pages,
    disk (passes mariadb_site Mariadb.is_valid_link Mariadb.CRAWL_LIMIT
            (Mariadb.convert mariadb_site) 1 (start [M] ∅))
      !! pdf_path Mariadb.OUTPUT_DIR M
    = Some (Pdf pages).
Proof.
  apply (mariadb_manifest_readable mariadb_site [M] ∅ 1
           (pdf_path Mariadb.OUTPUT_DIR M)).
  vm_compute. apply list_elem_of_here.
Defined.

Lemma mariadb_failed_render_not_listed_witness :
  let st' := Mariadb.crawl_body mariadb_broken_site (start [M] ∅) in
  pdf_files st' = []
  ∧ disk st' = ∅
  ∧ console st' = [] ++ [EvCrawl M; EvConvertError M].
Proof.
  apply (mariadb_failed_render_not_listed mariadb_broken_site (start [M] ∅)
           M [] (page_with "m" []) (page_with "m" [])).
  - reflexivity.
  - apply not_elem_of_empty.
  - reflexivity.
  - reflexivity.
  - vm_compute. reflexivity.
Defined.

(** ** What an accepted link looks like *)

Lemma any_keyword_false kws p :
  any_keyword kws p = false ↔ ∀ kw, kw ∈ kws → contains kw p = false.
Proof.
  induction kws as [|k kws IH]; simpl.
  - split; [|done]. intros _ kw Hkw. by apply elem_of_nil in Hkw.
  - destruct (contains k p) eqn:Hk.
    + split; [done|]. intros H. rewrite <- Hk. apply H, list_elem_of_here.
    + rewrite IH. split.
      * intros H kw [->|Hkw]%elem_of_cons; auto.
      * intros H kw Hkw. apply H. by apply list_elem_of_further.
Qed.

(** X6. A link the Apache filter accepts is non-empty, names no host or the
    configured host (compared in lower case), has a path that begins with
    the documentation prefix, contains none of the excluded keywords
    anywhere in its lower-cased path, and, when its path has three segments
    or more, has a third segment that is not a locale code. *)
Theorem accepted_link_shape (cfg : config) (href : string) :
  is_valid_link cfg href = true →
  let p := urlparse href in
  href ≠ EmptyString
  ∧ (netloc p = EmptyString ∨ lower (netloc p) = DOMAIN cfg)
  ∧ doc_path_regex cfg (path p) = true
  ∧ (∀ kw, kw ∈ EXCLUDE_KEYWORDS cfg → contains kw (lower (path p)) = false)
  ∧ (∀ seg, (3 ≤ length (split "/" (strip "/" (path p))))%nat →
            split "/" (strip "/" (path p)) !! 2%nat = Some seg →
            locale_code_regex cfg seg = false).
Proof.
  rewrite is_valid_link_spec. intros H p. fold p in H.
  apply andb_prop in H as [H Hloc]. apply andb_prop in H as [H Hkw].
  apply andb_prop in H as [H Hpath]. apply andb_prop in H as [Hne Hdom].
  split; [by destruct href|]. split.
  - unfold domain_mismatch in Hdom.
    apply negb_true_iff, andb_false_iff in Hdom as [Ht|He].
    + left. by destruct (netloc p).
    + right. by apply negb_false_iff, String.eqb_eq in He.
  - split; [done|]. split.
    + apply any_keyword_false. by apply negb_true_iff.
    + intros seg Hlen Hseg. apply negb_true_iff in Hloc.
      unfold locale_segment in Hloc.
      apply Nat.leb_le in Hlen. by rewrite Hlen, Hseg in Hloc.
Qed.

Lemma accepted_link_shape_witness :
  let p := urlparse "https://HTTPD.apache.org/docs/current/mod/core.html#x" in
  "https://HTTPD.apache.org/docs/current/mod/core.html#x" ≠ EmptyString
  ∧ (netloc p = EmptyString ∨ lower (netloc p) = DOMAIN apache_config)
  ∧ doc_path_regex apache_config (path p) = true
  ∧ (∀ kw, kw ∈ EXCLUDE_KEYWORDS apache_config →
           contains kw (lower (path p)) = false)
  ∧ (∀ seg, (3 ≤ length (split "/" (strip "/" (path p))))%nat →
            split "/" (strip "/" (path p)) !! 2%nat = Some seg →
            locale_code_regex apache_config seg = false).
Proof.
  apply (accepted_link_shape apache_config
           "https://HTTPD.apache.org/docs/current/mod/core.html#x").
  vm_compute. reflexivity.
Defined.

(** ** The Apache merger and the output names *)

Lemma merge_errors_length d l :
  length (Apache.merge_errors d l) =
  length (filter (λ f, Apache.appendable d f = false) l).
Proof.
  induction l as [|f l IH]; [done|].
  unfold Apache.merge_errors in *. simpl. rewrite length_app, IH.
  rewrite filter_cons.
  assert (Apache.appendable d f =
          match d !! f with Some (Pdf _) => true | _ => false end) as Ha
    by done.
  destruct (d !! f) as [[pg|]|] eqn:Hf; simpl;
    destruct (decide (Apache.appendable d f = false)) as [Hd|Hd];
    simpl; congruence.
Qed.

(** X7. [merge_pdfs] writes, under the output name, the pages of the inputs
    that are readable PDFs, input after input in manifest order (so the
    result for a manifest in two parts is the pages of the first part
    followed by those of the second); it leaves every other file as it was;
    and it prints one error line for each input that is missing or
    unreadable. *)
Theorem merge_pdfs_in_order (l1 l2 : list string) (output_pdf : string)
    (st : state) :
  let st' := Apache.merge_pdfs (l1 ++ l2) output_pdf st in
  disk st' !! output_pdf =
    Some (Pdf (concat (map (Apache.pages_at (disk st)) l1)
               ++ concat (map (Apache.pages_at (disk st)) l2)))
  ∧ (∀ f, f ≠ output_pdf → disk st' !! f = disk st !! f)
  ∧ console st' = console st ++ Apache.merge_errors (disk st) (l1 ++ l2)
  ∧ length (Apache.merge_errors (disk st) (l1 ++ l2)) =
      length (filter (λ f, Apache.appendable (disk st) f = false)
                (l1 ++ l2)).
Proof.
  intros st'.
  destruct (merge_pdfs_spec (l1 ++ l2) output_pdf st) as (Hd & Hc & _).
  fold st' in Hd, Hc. rewrite Hd, Hc.
  split; [by rewrite lookup_insert_eq, map_app, concat_app|].
  split; [intros f Hf; by rewrite lookup_insert_ne|].
  split; [done|apply merge_errors_length].
Qed.

Lemma replace_drops_char a b s :
  a ≠ b → has_char a (replace a b s) = false.
Proof.
  intros Hab. induction s as [|c s IH]; [done|]. simpl.
  rewrite IH, orb_false_r.
  destruct (Ascii.eqb_spec a c) as [->|Hac].
  - by apply Ascii.eqb_neq.
  - by apply Ascii.eqb_neq.
Qed.

Lemma replace_truthy a b s : truthy (replace a b s) = truthy s.
Proof. by destruct s. Qed.

(** X8. The output path of a page is [OUTPUT_DIR], a slash, a name and
    [.pdf], where the name is never empty and contains no slash: every
    page's PDF lies directly in the output directory, and a URL with an
    empty path is named [index]. *)
Theorem pdf_path_flat (output_dir url : string) :
  ∃ name,
    pdf_path output_dir url = (output_dir ++ "/" ++ name ++ ".pdf")%string
    ∧ has_char "/" name = false
    ∧ name ≠ EmptyString
    ∧ (strip "/" (path (urlparse url)) = EmptyString → name = "index").
Proof.
  unfold pdf_path.
  destruct (truthy (strip "/" (path (urlparse url)))) eqn:Ht.
  - eexists. split; [reflexivity|]. split; [by apply replace_drops_char|].
    split.
    + intros He. rewrite <- replace_truthy with (a := "/"%char) (b := "-"%char) in Ht.
      by rewrite He in Ht.
    + intros He. by rewrite He in Ht.
  - exists "index". split; [reflexivity|]. done.
Qed.

(** ** Polling and generation in the resumable script *)

(** X9. [poll_task_status] returns the status document of the first attempt,
    among the thirty, that answers [ok] with [isComplete] set: attempts that
    raise, answer with an error status or report an unfinished task before
    it are passed over, and nothing after it is looked at. *)
Theorem poll_returns_first_completion (net : Bind9.api) (task_id : string)
    (k : nat) (ts : Bind9.task_status) :
  (1 ≤ k ≤ Bind9.max_tries)%nat →
  Bind9.get_status net task_id k = Bind9.Ok (Some ts) →
  Bind9.isComplete ts = true →
  (∀ j, (1 ≤ j < k)%nat →
        Bind9.completes (Bind9.get_status net task_id j) = false) →
  Bind9.poll_task_status net task_id = Some ts.
Proof.
  intros Hk Hget Hc Hno. unfold Bind9.poll_task_status.
  apply (poll_from_first net task_id 1 Bind9.max_tries k ts); try done.
  lia.
Qed.

Lemma poll_returns_first_completion_witness :
  Bind9.poll_task_status done_at_third task1 =
    Some {| Bind9.isComplete := true;
            Bind9.result :=
              [{| Bind9.item_name := Some "url";
                  Bind9.item_value := Some "https://cdn.example/a.pdf" |}] |}.
Proof.
  apply (poll_returns_first_completion done_at_third task1 3).
  - unfold Bind9.max_tries. lia.
  - reflexivity.
  - reflexivity.
  - intros j Hj. assert (j = 1 ∨ j = 2)%nat as [-> | ->] by lia; reflexivity.
Defined.

Lemma url_of_result_first items v :
  Bind9.url_of_result items = Some v →
  ∃ pre item post,
    items = pre ++ item :: post
    ∧ Forall (λ i, Bind9.item_name i ≠ Some "url") pre
    ∧ Bind9.item_name item = Some "url"
    ∧ Bind9.item_value item = v.
Proof.
  induction items as [|i items IH]; [done|]. simpl.
  destruct (decide (Bind9.item_name i = Some "url")) as [Hi|Hi].
  - rewrite bool_decide_eq_true_2 by done. intros [= <-].
    exists [], i, items. by repeat split.
  - rewrite bool_decide_eq_false_2 by done. intros H.
    destruct (IH H) as (pre & item & post & -> & Hpre & Hn & Hv).
    exists (i :: pre), item, post. repeat split; try done.
    by constructor.
Qed.

(** X10. [generate_single_article_pdf] hands back a URL only when the
    generation request was accepted with a task identifier, polling ended
    on a completed status, and that status has an item named [url]: the
    value returned is the value of the first such item. *)
Theorem generated_url_comes_from_status (net : Bind9.api)
    (art_id file_name url : string) :
  Bind9.generate_single_article_pdf net art_id file_name = Some url →
  ∃ task_id ts pre item post,
    Bind9.post_generate net art_id file_name = Bind9.Ok (Some task_id)
    ∧ task_id ≠ EmptyString
    ∧ Bind9.poll_task_status net task_id = Some ts
    ∧ Bind9.isComplete ts = true
    ∧ Bind9.result ts = pre ++ item :: post
    ∧ Forall (λ i, Bind9.item_name i ≠ Some "url") pre
    ∧ Bind9.item_name item = Some "url"
    ∧ Bind9.item_value item = Some url.
Proof.
  unfold Bind9.generate_single_article_pdf.
  destruct (Bind9.post_generate net art_id file_name) as [| |[tid|]] eqn:Hpost;
    try discriminate.
  destruct (truthy tid) eqn:Htid; cbv beta iota; [|discriminate].
  change (negb true) with false. cbv beta iota.
  destruct (Bind9.poll_task_status net tid) as [ts|] eqn:Hpoll;
    [|discriminate].
  destruct (Bind9.isComplete ts) eqn:Hc; [|discriminate].
  change (negb true) with false. cbv beta iota.
  destruct (Bind9.url_of_result (Bind9.result ts)) as [v|] eqn:Hurl;
    [|discriminate].
  intros ->.
  destruct (url_of_result_first _ _ Hurl) as (pre & item & post & Hr & Hpre & Hn & Hv).
  exists tid, ts, pre, item, post. repeat split; try done.
  intros ->. discriminate.
Qed.

Lemma generated_url_comes_from_status_witness :
  ∃ task_id ts pre item post,
    Bind9.post_generate done_at_third art1 slug1 = Bind9.Ok (Some task_id)
    ∧ task_id ≠ EmptyString
    ∧ Bind9.poll_task_status done_at_third task_id = Some ts
    ∧ Bind9.isComplete ts = true
    ∧ Bind9.result ts = pre ++ item :: post
    ∧ Forall (λ i, Bind9.item_name i ≠ Some "url") pre
    ∧ Bind9.item_name item = Some "url"
    ∧ Bind9.item_value item = Some "https://cdn.example/a.pdf".
Proof.
  apply (generated_url_comes_from_status done_at_third art1 slug1).
  vm_compute. reflexivity.
Defined.

(** ** Step B over the caches *)

Lemma download_step_skip net st slug :
  (slug ∈ Bind9.failed_slugs st
   ∨ Bind9.article_id_of st slug = None
   ∨ ∃ art_id p, Bind9.article_id_of st slug = Some art_id
                 ∧ Bind9.pdf_tracker st !! art_id = Some p
                 ∧ Bind9.isfile (Bind9.files st) p = true) →
  Bind9.download_step net slug st = st.
Proof.
  intros H. unfold Bind9.download_step.
  destruct (decide (slug ∈ Bind9.failed_slugs st)) as [Hf|Hf].
  - by rewrite bool_decide_eq_true_2.
  - rewrite bool_decide_eq_false_2 by done.
    destruct H as [H|[H|(art_id & p & Hid & Htr & Hfile)]]; [done| |].
    + by rewrite H.
    + by rewrite Hid, Htr, Hfile.
Qed.

(** X11. A pass of Step B does nothing at all, and calls no service, for a
    slug that is marked failed, for a slug without an article identifier,
    and for a slug whose tracked file is on disk: re-running the script
    leaves finished and failed slugs alone. *)
Theorem finished_slug_is_skipped (net : Bind9.api) (st : Bind9.state)
    (slug : string) :
  (slug ∈ Bind9.failed_slugs st
   ∨ Bind9.article_id_of st slug = None
   ∨ ∃ art_id p, Bind9.article_id_of st slug = Some art_id
                 ∧ Bind9.pdf_tracker st !! art_id = Some p
                 ∧ Bind9.isfile (Bind9.files st) p = true) →
  Bind9.download_step net slug st = st.
Proof. apply download_step_skip. Qed.

Lemma finished_slug_is_skipped_witness :
  Bind9.download_step never_done slug1 unreadable_state = unreadable_state.
Proof.
  apply (finished_slug_is_skipped never_done unreadable_state slug1).
  right. right. exists art1, "aa-01310.pdf".
  split; [vm_compute; reflexivity|]. split; vm_compute; reflexivity.
Defined.

Lemma attempt_generation_frame net slug art_id st :
  Bind9.slug_cache (Bind9.attempt_generation net slug art_id st)
    = Bind9.slug_cache st
  ∧ Bind9.failed_slugs (Bind9.attempt_generation net slug art_id st)
    = Bind9.failed_slugs st
  ∧ Bind9.tracker_file (Bind9.attempt_generation net slug art_id st)
    = Bind9.pdf_tracker (Bind9.attempt_generation net slug art_id st)
  ∧ dom (Bind9.files st)
    ⊆ dom (Bind9.files (Bind9.attempt_generation net slug art_id st))
  ∧ (∀ a, a ≠ art_id →
          Bind9.pdf_tracker (Bind9.attempt_generation net slug art_id st) !! a
          = Bind9.pdf_tracker st !! a)
  ∧ (Bind9.pdf_tracker (Bind9.attempt_generation net slug art_id st) !! art_id
       = Bind9.pdf_tracker st !! art_id
     ∨ ∃ content,
        Bind9.pdf_tracker (Bind9.attempt_generation net slug art_id st) !! art_id
          = Some (slug ++ ".pdf")%string
        ∧ Bind9.files (Bind9.attempt_generation net slug art_id st)
            !! (slug ++ ".pdf")%string = Some content).
Proof.
  unfold Bind9.attempt_generation.
  destruct (Bind9.generate_single_article_pdf net art_id slug) as [u|];
    [destruct (truthy u)|]; try (simpl; by auto 10).
  unfold Bind9.download_pdf_file.
  destruct (Bind9.get_pdf net u) as [|code|content]; simpl; try by auto 10.
  split; [done|]. split; [done|]. split; [done|]. split.
  - rewrite dom_insert_L. apply union_subseteq_r.
  - split.
    + intros a Ha. by rewrite lookup_insert_ne.
    + right. exists content. by rewrite !lookup_insert_eq.
Qed.

Lemma isfile_dom d p : Bind9.isfile d p = true ↔ p ∈ dom d.
Proof.
  unfold Bind9.isfile. rewrite bool_decide_eq_true. by rewrite elem_of_dom.
Qed.

Lemma download_step_effect net slug st :
  let st' := Bind9.download_step net slug st in
  Bind9.slug_cache st' = Bind9.slug_cache st
  ∧ Bind9.failed_slugs st' = Bind9.failed_slugs st
  ∧ dom (Bind9.files st) ⊆ dom (Bind9.files st')
  ∧ (Bind9.tracker_file st = Bind9.pdf_tracker st →
     Bind9.tracker_file st' = Bind9.pdf_tracker st')
  ∧ (∀ a p, Bind9.pdf_tracker st' !! a = Some p →
       Bind9.isfile (Bind9.files st') p = true
       ∨ (Bind9.pdf_tracker st !! a = Some p
          ∧ (slug ∉ Bind9.failed_slugs st →
             Bind9.article_id_of st slug ≠ Some a))).
Proof.
  intros st'. unfold st', Bind9.download_step.
  destruct (decide (slug ∈ Bind9.failed_slugs st)) as [Hf|Hf].
  { rewrite bool_decide_eq_true_2 by done. repeat split; try done.
    intros a p Hp. right. by split. }
  rewrite bool_decide_eq_false_2 by done.
  destruct (Bind9.article_id_of st slug) as [id|] eqn:Hid.
  2:{ repeat split; try done. intros a p Hp. right. by split. }
  assert (∀ st1,
    Bind9.slug_cache st1 = Bind9.slug_cache st →
    Bind9.failed_slugs st1 = Bind9.failed_slugs st →
    Bind9.files st1 = Bind9.files st →
    Bind9.pdf_tracker st1 !! id = None →
    (∀ a, a ≠ id → Bind9.pdf_tracker st1 !! a = Bind9.pdf_tracker st !! a) →
    let st2 := Bind9.attempt_generation net slug id st1 in
    Bind9.slug_cache st2 = Bind9.slug_cache st
    ∧ Bind9.failed_slugs st2 = Bind9.failed_slugs st
    ∧ dom (Bind9.files st) ⊆ dom (Bind9.files st2)
    ∧ (Bind9.tracker_file st = Bind9.pdf_tracker st →
       Bind9.tracker_file st2 = Bind9.pdf_tracker st2)
    ∧ (∀ a p, Bind9.pdf_tracker st2 !! a = Some p →
         Bind9.isfile (Bind9.files st2) p = true
         ∨ (Bind9.pdf_tracker st !! a = Some p
            ∧ (slug ∉ Bind9.failed_slugs st → Some id ≠ Some a)))) as Hatt.
  { intros st1 Hc1 Hf1 Hd1 Hnone Hother st2.
    destruct (attempt_generation_frame net slug id st1)
      as (Hc & Hfl & Hsave & Hdom & Hoth & Hid').
    fold st2 in Hc, Hfl, Hsave, Hdom, Hoth, Hid'.
    rewrite Hc, Hfl, Hc1, Hf1. rewrite Hd1 in Hdom.
    repeat split; try done.
    intros a p Hp. destruct (decide (a = id)) as [->|Hne].
    - left. destruct Hid' as [Hsame|(content & Hnew & Hfile)].
      + rewrite Hsame, Hnone in Hp. discriminate.
      + rewrite Hnew in Hp. injection Hp as <-.
        apply isfile_dom, elem_of_dom. by eexists.
    - right. rewrite Hoth, Hother in Hp by done. split; [done|].
      intros _ [= ->]. done. }
  destruct (Bind9.pdf_tracker st !! id) as [f|] eqn:Htr.
  - destruct (Bind9.isfile (Bind9.files st) f) eqn:Hfile.
    + repeat split; try done. intros a p Hp.
      destruct (decide (a = id)) as [->|Hne].
      * left. rewrite Htr in Hp. by injection Hp as <-.
      * right. split; [done|]. intros _ [= ->]. done.
    + apply Hatt; try done.
      * simpl. apply lookup_delete_eq.
      * intros a Ha. simpl. by apply lookup_delete_ne.
  - by apply Hatt.
Qed.

(** X12. Step B as a whole changes neither the slug cache nor the failed
    set, removes no file, and keeps the saved tracker equal to the tracker
    in memory if it was so at the start.  When it is over, no listed slug
    that is not marked failed has a tracker entry naming a missing file:
    each is untracked (to be tried again) or tracked with its file on
    disk. *)
Theorem step_B_postcondition (net : Bind9.api) (slugs : list string)
    (st : Bind9.state) :
  let st' := Bind9.step_B net slugs st in
  Bind9.slug_cache st' = Bind9.slug_cache st
  ∧ Bind9.failed_slugs st' = Bind9.failed_slugs st
  ∧ dom (Bind9.files st) ⊆ dom (Bind9.files st')
  ∧ (Bind9.tracker_file st = Bind9.pdf_tracker st →
     Bind9.tracker_file st' = Bind9.pdf_tracker st')
  ∧ ∀ slug, slug ∈ slugs → slug ∉ Bind9.failed_slugs st →
            Bind9.tracker_sound st' slug.
Proof.
  cbv zeta. unfold Bind9.step_B. revert st.
  induction slugs as [|s slugs IH] using rev_ind; intros st.
  { repeat split; try done. intros slug H. by apply elem_of_nil in H. }
  rewrite foldl_app. simpl.
  set (mid := foldl (λ s0 slug, Bind9.download_step net slug s0) st slugs).
  destruct (IH st) as (Hc & Hf & Hd & Hsave & Hsound). fold mid in Hc, Hf, Hd, Hsave, Hsound.
  destruct (download_step_effect net s mid) as (Hc' & Hf' & Hd' & Hsave' & Hk).
  split; [congruence|]. split; [congruence|].
  split; [etrans; eassumption|]. split; [auto|].
  intros slug Hin Hnf art p Hid Htr.
  rewrite (article_id_of_frame mid _ slug Hc') in Hid.
  destruct (Hk art p Htr) as [Hok|[Hold Hdiff]]; [done|].
  apply elem_of_app in Hin as [Hin|Hin].
  - apply isfile_dom, Hd', isfile_dom. by apply (Hsound slug Hin Hnf art).
  - apply list_elem_of_singleton in Hin. subst s.
    exfalso. apply Hdiff; [by rewrite Hf|done].
Qed.

Lemma step_B_postcondition_witness :
  Bind9.tracker_sound (Bind9.step_B done_at_third [slug1] stale_state) slug1.
Proof.
  pose proof (step_B_postcondition done_at_third [slug1] stale_state) as H.
  cbv zeta in H. destruct H as (_ & _ & _ & _ & H).
  apply H; [apply list_elem_of_here|apply not_elem_of_empty].
Defined.

(** X13. When a pass of Step B reaches the generation attempt and the
    attempt yields a URL whose download succeeds, the downloaded bytes are on
    disk under [<slug>.pdf], the tracker and the saved tracker map the
    article identifier to that name, and a second pass for the same slug is
    a no-op whatever the service would answer. *)
Theorem download_then_skip (net : Bind9.api) (st : Bind9.state)
    (slug art_id url : string) (content : file) :
  slug ∉ Bind9.failed_slugs st →
  Bind9.article_id_of st slug = Some art_id →
  (Bind9.pdf_tracker st !! art_id = None
   ∨ ∃ p, Bind9.pdf_tracker st !! art_id = Some p
          ∧ Bind9.isfile (Bind9.files st) p = false) →
  Bind9.generate_single_article_pdf net art_id slug = Some url →
  truthy url = true →
  Bind9.get_pdf net url = Bind9.Ok content →
  let st' := Bind9.download_step net slug st in
  Bind9.files st' !! (slug ++ ".pdf")%string = Some content
  ∧ Bind9.pdf_tracker st' !! art_id = Some (slug ++ ".pdf")%string
  ∧ Bind9.tracker_file st' = Bind9.pdf_tracker st'
  ∧ ∀ net', Bind9.download_step net' slug st' = st'.
Proof.
  intros Hnf Hid Htr Hgen Hu Hget st'.
  assert (∀ st1, Bind9.slug_cache st1 = Bind9.slug_cache st →
                 Bind9.failed_slugs st1 = Bind9.failed_slugs st →
    let st2 := Bind9.attempt_generation net slug art_id st1 in
    Bind9.files st2 !! (slug ++ ".pdf")%string = Some content
    ∧ Bind9.pdf_tracker st2 !! art_id = Some (slug ++ ".pdf")%string
    ∧ Bind9.tracker_file st2 = Bind9.pdf_tracker st2
    ∧ Bind9.slug_cache st2 = Bind9.slug_cache st
    ∧ Bind9.failed_slugs st2 = Bind9.failed_slugs st) as Hatt.
  { intros st1 Hc1 Hf1. unfold Bind9.attempt_generation.
    rewrite Hgen, Hu. unfold Bind9.download_pdf_file. rewrite Hget. simpl.
    by rewrite !lookup_insert_eq. }
  assert (Bind9.files st' !! (slug ++ ".pdf")%string = Some content
    ∧ Bind9.pdf_tracker st' !! art_id = Some (slug ++ ".pdf")%string
    ∧ Bind9.tracker_file st' = Bind9.pdf_tracker st'
    ∧ Bind9.slug_cache st' = Bind9.slug_cache st
    ∧ Bind9.failed_slugs st' = Bind9.failed_slugs st)
    as (Hfile & Htr' & Hsave & Hc & Hf).
  { unfold st', Bind9.download_step.
    rewrite bool_decide_eq_false_2 by done. rewrite Hid.
    destruct Htr as [Hnone|(p & Hsome & Hmiss)].
    - rewrite Hnone. by apply Hatt.
    - rewrite Hsome, Hmiss. by apply Hatt. }
  repeat (split; [done|]).
  intros net'. apply download_step_skip. right. right.
  exists art_id, (slug ++ ".pdf")%string.
  split; [by rewrite (article_id_of_frame st st' slug Hc)|].
  split; [done|]. apply isfile_dom, elem_of_dom. by eexists.
Qed.

Lemma download_then_skip_witness :
  let st' := Bind9.download_step done_at_third slug1 stale_state in
  Bind9.files st' !! (slug1 ++ ".pdf")%string = Some (Pdf ["page 1"; "page 2"])
  ∧ Bind9.pdf_tracker st' !! art1 = Some (slug1 ++ ".pdf")%string
  ∧ Bind9.tracker_file st' = Bind9.pdf_tracker st'
  ∧ ∀ net', Bind9.download_step net' slug1 st' = st'.
Proof.
  apply (download_then_skip done_at_third stale_state slug1 art1
           "https://cdn.example/a.pdf").
  - apply not_elem_of_empty.
  - vm_compute. reflexivity.
  - right. exists "aa-01310.pdf". split; vm_compute; reflexivity.
  - vm_compute. reflexivity.
  - reflexivity.
  - reflexivity.
Defined.

(** ** Step C over the slug list *)

Lemma merge_step_classified st slug acc :
  Bind9.merger_pages (Bind9.merge_step st slug acc) =
    Bind9.merger_pages acc ++ Bind9.appended_pages (Bind9.classify st slug)
  ∧ Bind9.missing_slugs (Bind9.merge_step st slug acc) =
    Bind9.missing_slugs acc
      ++ (if decide (Bind9.classify st slug = Bind9.Missing) then [slug] else [])
  ∧ Bind9.merge_failed_slugs (Bind9.merge_step st slug acc) =
    Bind9.merge_failed_slugs acc
      ++ (if decide (Bind9.classify st slug = Bind9.MergeFailed)
          then [slug] else []).
Proof.
  unfold Bind9.merge_step, Bind9.classify.
  destruct (bool_decide (slug ∈ Bind9.failed_slugs st));
    [simpl; by rewrite !app_nil_r|].
  destruct (Bind9.article_id_of st slug) as [a|];
    [|simpl; by rewrite !app_nil_r].
  destruct (Bind9.pdf_tracker st !! a) as [p|];
    [|simpl; by rewrite !app_nil_r].
  destruct (truthy p); [|simpl; by rewrite !app_nil_r]. simpl.
  destruct (Bind9.files st !! p) as [[pages|]|]; simpl;
    by rewrite ?app_nil_r.
Qed.

(** X14. Step C goes through the slugs in list order and sorts each into
    exactly one of three groups: missing (marked failed, no identifier, not
    tracked, or no file on disk), appended (its file is a readable PDF), or
    merge-failed (its file is on disk but unreadable).  The merged pages are
    the pages of the appended slugs in list order, and the two reported lists
    are the missing and the merge-failed slugs in list order. *)
Theorem step_C_sorts_slugs (slugs : list string) (st : Bind9.state) :
  let acc := Bind9.merge_loop slugs st in
  Bind9.merger_pages acc =
    concat (map (λ s, Bind9.appended_pages (Bind9.classify st s)) slugs)
  ∧ Bind9.missing_slugs acc =
    filter (λ s, Bind9.classify st s = Bind9.Missing) slugs
  ∧ Bind9.merge_failed_slugs acc =
    filter (λ s, Bind9.classify st s = Bind9.MergeFailed) slugs
  ∧ (Bind9.merger_pages acc ≠ [] →
     Bind9.files (Bind9.step_C slugs st) =
       <[Bind9.FINAL_MERGED_PDF := Pdf (Bind9.merger_pages acc)]>
         (Bind9.files st)).
Proof.
  intros acc.
  assert (∀ a0,
    let a := foldl (λ a slug, Bind9.merge_step st slug a) a0 slugs in
    Bind9.merger_pages a = Bind9.merger_pages a0 ++
      concat (map (λ s, Bind9.appended_pages (Bind9.classify st s)) slugs)
    ∧ Bind9.missing_slugs a = Bind9.missing_slugs a0 ++
      filter (λ s, Bind9.classify st s = Bind9.Missing) slugs
    ∧ Bind9.merge_failed_slugs a = Bind9.merge_failed_slugs a0 ++
      filter (λ s, Bind9.classify st s = Bind9.MergeFailed) slugs) as Hgen.
  { induction slugs as [|s slugs IH]; intros a0; simpl.
    - by rewrite !app_nil_r.
    - destruct (IH (Bind9.merge_step st s a0)) as (Hp & Hm & Hf).
      destruct (merge_step_classified st s a0) as (Hp0 & Hm0 & Hf0).
      rewrite Hp, Hm, Hf, Hp0, Hm0, Hf0, !filter_cons.
      repeat split; rewrite <- ?app_assoc; try done.
      + by destruct (decide (Bind9.classify st s = Bind9.Missing)).
      + by destruct (decide (Bind9.classify st s = Bind9.MergeFailed)). }
  destruct (Hgen {| Bind9.merger_pages := []; Bind9.missing_slugs := [];
                    Bind9.merge_failed_slugs := [];
                    Bind9.merge_out := Bind9.out st |}) as (Hp & Hm & Hf).
  split; [exact Hp|]. split; [exact Hm|]. split; [exact Hf|].
  intros Hne. unfold Bind9.step_C. fold acc.
  by destruct (Bind9.merger_pages acc).
Qed.

Lemma step_C_sorts_slugs_witness :
  let st := Bind9.download_step done_at_third slug1 stale_state in
  Bind9.files (Bind9.step_C [slug1] st) =
    <[Bind9.FINAL_MERGED_PDF :=
        Pdf (Bind9.merger_pages (Bind9.merge_loop [slug1] st))]>
      (Bind9.files st).
Proof.
  intros st.
  pose proof (step_C_sorts_slugs [slug1] st) as H. cbv zeta in H.
  destruct H as (_ & _ & _ & H). apply H.
  vm_compute. discriminate.
Defined.

(** ** Step A: finding the article identifier *)

Lemma take_id_length n s g rest :
  Bind9.take_id n s = Some (g, rest) → String.length g = n.
Proof.
  revert s g rest. induction n as [|n IH]; intros s g rest;
    cbn [Bind9.take_id].
  - by intros [= <- _].
  - destruct s as [|c r]; [done|].
    destruct (Bind9.id_char c); [|done].
    destruct (Bind9.take_id n r) as [[g' rest']|] eqn:Ht; [|done].
    intros [= <- _]. simpl. f_equal. by apply (IH r g' rest').
Qed.

Lemma match_article_id_length s g rest :
  Bind9.match_article_id s = Some (g, rest) → String.length g = 36%nat.
Proof.
  unfold Bind9.match_article_id.
  destruct (Bind9.after_literal _ s) as [s1|]; [|done].
  destruct (Bind9.skip_spaces s1) as [|c s2]; [done|].
  destruct (Ascii.eqb c ":"); [|done].
  destruct (Bind9.skip_spaces s2) as [|q s3]; [done|].
  destruct (Ascii.eqb q Bind9.quote); [|done].
  destruct (Bind9.take_id 36 s3) as [[g' r']|] eqn:Ht; [|done].
  destruct r' as [|q' rest']; [done|].
  destruct (Ascii.eqb q' Bind9.quote); [|done].
  intros [= <- _]. by apply take_id_length in Ht.
Qed.

Lemma findall_from_lengths skip s :
  Forall (λ g, String.length g = 36%nat) (Bind9.findall_from skip s).
Proof.
  revert skip. induction s as [|c r IH]; intros skip; [constructor|].
  cbn [Bind9.findall_from]. destruct skip as [|k]; [|apply IH].
  destruct (Bind9.match_article_id (String c r)) as [[g rest]|] eqn:Hm;
    [|apply IH].
  constructor; [by apply match_article_id_length in Hm|apply IH].
Qed.

Lemma first_not_global_spec matches id :
  Bind9.first_not_global matches = Some id →
  ∃ pre post, matches = pre ++ id :: post
              ∧ Forall (λ m, lower m = Bind9.GLOBAL_ID) pre
              ∧ lower id ≠ Bind9.GLOBAL_ID.
Proof.
  unfold Bind9.first_not_global.
  induction matches as [|m ms IH]; [done|]. rewrite filter_cons.
  destruct (decide (lower m ≠ Bind9.GLOBAL_ID)) as [Hm|Hm].
  - simpl. intros [= <-]. exists [], ms. by repeat split.
  - intros H. destruct (IH H) as (pre & post & -> & Hpre & Hid).
    exists (m :: pre), post. repeat split; try done.
    constructor; [|done]. by destruct (decide (lower m = Bind9.GLOBAL_ID)).
Qed.

(** X15. [find_real_article_id] returns the first [articleId] value of the
    page that is not the project-wide identifier, compared without regard
    to letter case: what it returns is one of the values found, is thirty-six
    characters long, differs from the global identifier in lower case, and
    every value found before it is the global identifier. *)
Theorem real_article_id_not_global (html_text id : string) :
  Bind9.find_real_article_id html_text = Some id →
  lower id ≠ Bind9.GLOBAL_ID
  ∧ String.length id = 36%nat
  ∧ ∃ pre post,
      Bind9.findall_article_ids html_text = pre ++ id :: post
      ∧ Forall (λ m, lower m = Bind9.GLOBAL_ID) pre.
Proof.
  unfold Bind9.find_real_article_id. intros H.
  destruct (first_not_global_spec _ _ H) as (pre & post & Heq & Hpre & Hid).
  split; [done|]. split; [|by exists pre, post].
  pose proof (findall_from_lengths 0 html_text) as Hall.
  unfold Bind9.findall_article_ids in Heq. rewrite Heq in Hall.
  apply Forall_app in Hall as [_ Hall]. by apply Forall_cons in Hall as [? _].
Qed.

Lemma real_article_id_not_global_witness :
  lower art1 ≠ Bind9.GLOBAL_ID
  ∧ String.length art1 = 36%nat
  ∧ ∃ pre post,
      Bind9.findall_article_ids kb_page = pre ++ art1 :: post
      ∧ Forall (λ m, lower m = Bind9.GLOBAL_ID) pre.
Proof.
  apply (real_article_id_not_global kb_page art1).
  vm_compute. reflexivity.
Defined.

(** ** Step A over the caches *)

Lemma visit_outcome_cases b slug status content :
  let r := Bind9.visit_outcome b slug status content in
  (r.2 = true ∧ Bind9.articleId r.1 = None)
  ∨ (r.2 = false ∧ truthy_opt (Bind9.articleId r.1) = true).
Proof.
  unfold Bind9.visit_outcome.
  destruct (status =? 200)%nat; [|by left].
  destruct (truthy content); [|by left].
  destruct (Bind9.find_real_article_id content) as [id|]; [|by left].
  destruct (truthy id) eqn:Hid; [by right|by left].
Qed.

Lemma has_article_id_insert c slug info s :
  Bind9.has_article_id (<[slug := info]> c) s =
    if decide (slug = s) then truthy_opt (Bind9.articleId info)
    else Bind9.has_article_id c s.
Proof.
  unfold Bind9.has_article_id. rewrite lookup_insert.
  by destruct (decide (slug = s)).
Qed.

Lemma resolve_step_effect b slug st :
  let st' := Bind9.resolve_step b slug st in
  Bind9.settled st' slug
  ∧ Bind9.failed st ⊆ Bind9.failed st'
  ∧ (∀ s, s ≠ slug → Bind9.cache st' !! s = Bind9.cache st !! s)
  ∧ (Bind9.has_article_id (Bind9.cache st) slug = true →
     Bind9.cache st' = Bind9.cache st)
  ∧ (Bind9.failed_unresolved st → Bind9.failed_unresolved st')
  ∧ (Bind9.cache_file st = Bind9.cache st →
     Bind9.failed_file st = Bind9.failed st →
     Bind9.cache_file st' = Bind9.cache st'
     ∧ Bind9.failed_file st' = Bind9.failed st').
Proof.
  intros st'. unfold st', Bind9.resolve_step.
  destruct (decide (slug ∈ Bind9.failed st)) as [Hf|Hf].
  { rewrite bool_decide_eq_true_2 by done.
    repeat split; try done. by left. }
  rewrite bool_decide_eq_false_2 by done.
  destruct (Bind9.has_article_id (Bind9.cache st) slug) eqn:Hid.
  { repeat split; try done. by right. }
  destruct (Bind9.goto b _) as [| |status content].
  - simpl. split; [left; set_solver|]. split; [set_solver|].
    split; [done|]. split; [done|]. split; [|done].
    intros Hinv s [->%elem_of_singleton|Hs]%elem_of_union; simpl; auto.
  - simpl. split; [left; set_solver|]. split; [set_solver|].
    split; [intros s Hs; by rewrite lookup_insert_ne|].
    split; [done|]. split; [|done].
    intros Hinv s Hs. simpl in *. rewrite has_article_id_insert.
    destruct (decide (slug = s)); [done|].
    apply Hinv. set_solver.
  - pose proof (visit_outcome_cases b slug status content) as Hcases.
    destruct (Bind9.visit_outcome b slug status content) as [info bad].
    simpl in Hcases.
    destruct Hcases as [[-> Hnone]|[-> Hsome]]; simpl.
    + split; [left; set_solver|]. split; [set_solver|].
      split; [intros s Hs; by rewrite lookup_insert_ne|].
      split; [done|]. split; [|done].
      intros Hinv s Hs. simpl in *. rewrite has_article_id_insert.
      destruct (decide (slug = s)); [by rewrite Hnone|].
      apply Hinv. set_solver.
    + split; [right; cbn [Bind9.cache];
              by rewrite has_article_id_insert, decide_True|].
      split; [done|].
      split; [intros s Hs; by rewrite lookup_insert_ne|].
      split; [done|]. split; [|done].
      intros Hinv s Hs. simpl in *. rewrite has_article_id_insert.
      destruct (decide (slug = s)) as [->|]; [done|by apply Hinv].
Qed.

Lemma has_article_id_lookup c c' s :
  c' !! s = c !! s → Bind9.has_article_id c' s = Bind9.has_article_id c s.
Proof. unfold Bind9.has_article_id. by intros ->. Qed.

Lemma resolve_step_settled_mono b slug st s :
  Bind9.settled st s → Bind9.settled (Bind9.resolve_step b slug st) s.
Proof.
  destruct (resolve_step_effect b slug st) as (Hs & Hf & Hc & _).
  destruct (decide (s = slug)) as [->|Hne]; [done|].
  intros [Hin|Hid]; [left; by apply Hf|right].
  by rewrite (has_article_id_lookup _ _ s (Hc s Hne)).
Qed.

Lemma resolve_step_keeps_resolved b slug st s :
  Bind9.has_article_id (Bind9.cache st) s = true →
  Bind9.cache (Bind9.resolve_step b slug st) !! s = Bind9.cache st !! s.
Proof.
  destruct (resolve_step_effect b slug st) as (_ & _ & Hc & Hsame & _).
  destruct (decide (s = slug)) as [->|Hne]; [|intros _; by apply Hc].
  intros H. by rewrite (Hsame H).
Qed.

Lemma step_A_frame b slugs st :
  Bind9.failed st ⊆ Bind9.failed (Bind9.step_A b slugs st)
  ∧ (∀ s, Bind9.settled st s → Bind9.settled (Bind9.step_A b slugs st) s)
  ∧ (∀ s, Bind9.has_article_id (Bind9.cache st) s = true →
          Bind9.cache (Bind9.step_A b slugs st) !! s = Bind9.cache st !! s)
  ∧ (Bind9.failed_unresolved st →
     Bind9.failed_unresolved (Bind9.step_A b slugs st))
  ∧ (Bind9.cache_file st = Bind9.cache st →
     Bind9.failed_file st = Bind9.failed st →
     Bind9.cache_file (Bind9.step_A b slugs st)
       = Bind9.cache (Bind9.step_A b slugs st)
     ∧ Bind9.failed_file (Bind9.step_A b slugs st)
       = Bind9.failed (Bind9.step_A b slugs st)).
Proof.
  unfold Bind9.step_A. revert st.
  induction slugs as [|slug slugs IH]; intros st; simpl; [done|].
  destruct (IH (Bind9.resolve_step b slug st)) as (Hf & Hs & Hc & Hinv & Hsave).
  destruct (resolve_step_effect b slug st) as (_ & Hf0 & _ & _ & Hinv0 & Hsave0).
  split; [etrans; eassumption|]. split.
  { intros s H. by apply Hs, resolve_step_settled_mono. }
  split.
  { intros s H. rewrite Hc.
    - by apply resolve_step_keeps_resolved.
    - by rewrite (has_article_id_lookup _ _ s
                    (resolve_step_keeps_resolved b slug st s H)). }
  split; [auto|].
  intros H1 H2. destruct (Hsave0 H1 H2). by apply Hsave.
Qed.

Lemma step_A_settles b slugs st s :
  s ∈ slugs → Bind9.settled (Bind9.step_A b slugs st) s.
Proof.
  revert st. induction slugs as [|slug slugs IH]; intros st Hs.
  - by apply elem_of_nil in Hs.
  - unfold Bind9.step_A. simpl.
    apply elem_of_cons in Hs as [->|Hs].
    + destruct (step_A_frame b slugs (Bind9.resolve_step b slug st))
        as (_ & Hmono & _).
      apply Hmono. by destruct (resolve_step_effect b slug st) as (H & _).
    + by apply IH.
Qed.

(** X16. After Step A every listed slug is settled: it is marked failed or
    has an article identifier.  Step A never removes a slug from the failed
    set and never touches the entry of a slug that already had an
    identifier; it keeps the failed set and the resolved slugs apart if they
    were apart before; and it keeps both saved files equal to the caches in
    memory if they were so at the start. *)
Theorem step_A_postcondition (b : Bind9.browser) (slugs : list string)
    (st : Bind9.resolve_state) :
  let st' := Bind9.step_A b slugs st in
  (∀ s, s ∈ slugs → Bind9.settled st' s)
  ∧ Bind9.failed st ⊆ Bind9.failed st'
  ∧ (∀ s, Bind9.has_article_id (Bind9.cache st) s = true →
          Bind9.cache st' !! s = Bind9.cache st !! s)
  ∧ (Bind9.failed_unresolved st → Bind9.failed_unresolved st')
  ∧ (Bind9.cache_file st = Bind9.cache st →
     Bind9.failed_file st = Bind9.failed st →
     Bind9.cache_file st' = Bind9.cache st'
     ∧ Bind9.failed_file st' = Bind9.failed st').
Proof.
  cbv zeta. split.
  2:{ destruct (step_A_frame b slugs st) as (H1 & _ & H3 & H4 & H5).
      split; [exact H1|]. split; [exact H3|]. split; [exact H4|exact H5]. }
  intros s Hs. by apply step_A_settles.
Qed.

Lemma step_A_postcondition_witness :
  Bind9.settled (Bind9.step_A kb_browser [slug1] nothing_resolved) slug1
  ∧ Bind9.failed_unresolved (Bind9.step_A kb_browser [slug1] nothing_resolved).
Proof.
  pose proof (step_A_postcondition kb_browser [slug1] nothing_resolved) as H.
  cbv zeta in H. destruct H as (Hs & _ & _ & Hinv & _).
  split; [apply Hs, list_elem_of_here|].
  apply Hinv. intros s Hin. by apply not_elem_of_empty in Hin.
Defined.

Lemma step_A_all_settled b slugs st :
  (∀ s, s ∈ slugs → Bind9.settled st s) → Bind9.step_A b slugs st = st.
Proof.
  unfold Bind9.step_A. induction slugs as [|slug slugs IH]; intros H; [done|].
  simpl.
  assert (Bind9.resolve_step b slug st = st) as ->.
  { unfold Bind9.resolve_step.
    destruct (H slug (list_elem_of_here _ _)) as [Hf|Hid].
    - by rewrite bool_decide_eq_true_2.
    - destruct (bool_decide (slug ∈ Bind9.failed st)); [done|].
      by rewrite Hid. }
  apply IH. intros s Hs. apply H. by apply list_elem_of_further.
Qed.

(** X17. Step A is safe to run again: a second run over the same slug list,
    whatever the site answers then, visits no page and leaves the caches
    and the saved files exactly as the first run left them. *)
Theorem step_A_rerun (b b' : Bind9.browser) (slugs : list string)
    (st : Bind9.resolve_state) :
  Bind9.step_A b' slugs (Bind9.step_A b slugs st) = Bind9.step_A b slugs st.
Proof.
  apply step_A_all_settled. intros s Hs. by apply step_A_settles.
Qed.

(** ** What the cleaner removes *)

Lemma find_node_elem p nm attrs ch :
  find_node p (Elem nm attrs ch) =
    if p (Elem nm attrs ch) then Some (Elem nm attrs ch) else find p ch.
Proof.
  simpl. destruct (p (Elem nm attrs ch)); [done|].
  induction ch as [|c ch IH]; simpl; [done|].
  destruct (find_node p c); [done|apply IH].
Qed.

Lemma find_cons_None p c doc :
  find p (c :: doc) = None ↔ find_node p c = None ∧ find p doc = None.
Proof.
  simpl. destruct (find_node p c); [|by split; [|intros [_ ?]]].
  split; [done|by intros [? _]].
Qed.

Lemma find_omap_None p f (ch : soup) :
  Forall (λ c, ∀ c', f c = Some c' → find_node p c' = None) ch →
  find p (omap f ch) = None.
Proof.
  induction 1 as [|c ch Hc _ IH]; [done|]. simpl.
  destruct (f c) as [c'|] eqn:Hf; [|done].
  apply find_cons_None. split; [by apply Hc|done].
Qed.

(** Decomposing the matches of a selector leaves none of them. *)
Lemma decompose_node_clean sel n n' :
  decompose_node sel n = Some n' → find_node (matches sel) n' = None.
Proof.
  revert n'. induction n as [s|nm attrs ch IH] using node_forall_ind;
    intros n'.
  - intros [= <-]. done.
  - cbn [decompose_node].
    destruct (matches sel (Elem nm attrs ch)) eqn:Hm; [done|].
    intros [= <-]. rewrite find_node_elem.
    change (matches sel (Elem nm attrs (omap (decompose_node sel) ch)))
      with (matches sel (Elem nm attrs ch)).
    rewrite Hm. by apply find_omap_None.
Qed.

(** Decomposing the matches of one selector brings in no match of another. *)
Lemma decompose_node_keeps_clean sel sel' n n' :
  find_node (matches sel) n = None →
  decompose_node sel' n = Some n' → find_node (matches sel) n' = None.
Proof.
  revert n'. induction n as [s|nm attrs ch IH] using node_forall_ind;
    intros n' Hclean.
  - by intros [= <-].
  - cbn [decompose_node].
    destruct (matches sel' (Elem nm attrs ch)); [done|].
    intros [= <-]. rewrite find_node_elem in *.
    change (matches sel (Elem nm attrs (omap (decompose_node sel') ch)))
      with (matches sel (Elem nm attrs ch)).
    destruct (matches sel (Elem nm attrs ch)); [done|].
    apply find_omap_None. clear -IH Hclean.
    induction IH as [|c ch Hc _ IHch]; constructor.
    + apply find_cons_None in Hclean as [Hc0 _]. intros c'. by apply Hc.
    + apply find_cons_None in Hclean as [_ Hrest]. by apply IHch.
Qed.

Lemma Forall_intro_all (P : node → Prop) (l : soup) : (∀ n, P n) → Forall P l.
Proof. intros H. induction l; constructor; auto. Qed.

Lemma decompose_all_clean sel doc :
  find (matches sel) (decompose_all sel doc) = None.
Proof.
  apply find_omap_None, Forall_intro_all. intros c c'.
  apply decompose_node_clean.
Qed.

Lemma decompose_all_keeps_clean sel sel' doc :
  find (matches sel) doc = None →
  find (matches sel) (decompose_all sel' doc) = None.
Proof.
  intros Hclean. apply find_omap_None.
  induction doc as [|c doc IH]; constructor.
  - apply find_cons_None in Hclean as [Hc _]. intros c'.
    by apply decompose_node_keeps_clean.
  - apply find_cons_None in Hclean as [_ Hrest]. by apply IH.
Qed.

Lemma remove_selectors_clean sels doc sel :
  sel ∈ sels → find (matches sel) (remove_selectors sels doc) = None.
Proof.
  unfold remove_selectors. revert doc.
  induction sels as [|s sels IH] using rev_ind; intros doc Hin.
  - by apply elem_of_nil in Hin.
  - rewrite foldl_app. simpl. apply elem_of_app in Hin as [Hin|Hin].
    + apply decompose_all_keeps_clean. by apply IH.
    + apply list_elem_of_singleton in Hin. subst s. apply decompose_all_clean.
Qed.

(** A node found inside a clean node is clean. *)
Lemma find_node_sub_clean p q n r :
  find_node q n = Some r → find_node p n = None → find_node p r = None.
Proof.
  revert r. induction n as [s|nm attrs ch IH] using node_forall_ind; intros r.
  - simpl. destruct (q (Text s)); [|done]. by intros [= <-].
  - rewrite !find_node_elem.
    destruct (q (Elem nm attrs ch)).
    + intros [= <-]. by rewrite find_node_elem.
    + destruct (p (Elem nm attrs ch)); [done|].
      induction IH as [|c ch Hc _ IHch]; [done|]. simpl.
      destruct (find_node q c) as [r'|] eqn:Hq.
      * intros [= <-] Hclean. apply (Hc r'); [done|].
        by destruct (find_node p c).
      * intros Hr Hclean. apply IHch; [done|].
        by destruct (find_node p c).
Qed.

Lemma find_sub_clean p q doc r :
  find q doc = Some r → find p doc = None → find_node p r = None.
Proof.
  induction doc as [|c doc IH]; [done|]. simpl.
  destruct (find_node q c) as [r'|] eqn:Hq.
  - intros [= <-] Hclean. apply (find_node_sub_clean p q c r'); [done|].
    by destruct (find_node p c).
  - intros Hr Hclean. apply IH; [done|]. by destruct (find_node p c).
Qed.

(** X18. What the Apache cleaner returns contains no element that matches
    one of the removal selectors, at any depth: whichever of the three
    regions is chosen, no [header], [footer], [nav], [script], [style],
    [form] and so on is left in it. *)
Theorem cleaned_region_has_no_clutter (doc : soup) (sel : selector) :
  sel ∈ SELECTORS_TO_REMOVE →
  find (matches sel)
    (region_soup (select_region is_page_content
                    (remove_selectors SELECTORS_TO_REMOVE doc))) = None.
Proof.
  intros Hin.
  pose proof (remove_selectors_clean SELECTORS_TO_REMOVE doc sel Hin) as Hclean.
  unfold select_region.
  destruct (find is_page_content _) as [r|] eqn:Hr.
  - simpl. by rewrite (find_sub_clean _ _ _ _ Hr Hclean).
  - unfold Dom.body.
    destruct (find (is_tag "body") _) as [b|] eqn:Hb; [|done].
    simpl. by rewrite (find_sub_clean _ _ _ _ Hb Hclean).
Qed.

Lemma cleaned_region_has_no_clutter_witness :
  find (matches (SelTag "script"))
    (region_soup (select_region is_page_content
       (remove_selectors SELECTORS_TO_REMOVE
          [Elem "html" []
             [Elem "body" []
                [Elem "div" [("id", "page-content")]
                   [Text "a"; Elem "script" [] [Text "b"]]]]]))) = None.
Proof.
  apply cleaned_region_has_no_clutter.
  unfold SELECTORS_TO_REMOVE.
  do 11 apply list_elem_of_further. apply list_elem_of_here.
Defined.

Lemma decompose_node_clean_id sel n :
  find_node (matches sel) n = None → decompose_node sel n = Some n.
Proof.
  induction n as [s|nm attrs ch IH] using node_forall_ind; [done|].
  rewrite find_node_elem. cbn [decompose_node].
  destruct (matches sel (Elem nm attrs ch)); [done|].
  intros Hclean. do 2 f_equal.
  induction IH as [|c ch Hc _ IHch]; [done|].
  apply find_cons_None in Hclean as [Hc0 Hrest].
  change (omap (decompose_node sel) (c :: ch))
    with (match decompose_node sel c with
          | Some y => y :: omap (decompose_node sel) ch
          | None => omap (decompose_node sel) ch
          end).
  by rewrite (Hc Hc0), (IHch Hrest).
Qed.

Lemma decompose_all_clean_id sel doc :
  find (matches sel) doc = None → decompose_all sel doc = doc.
Proof.
  unfold decompose_all. induction doc as [|c doc IH]; [done|].
  intros [Hc Hrest]%find_cons_None.
  change (omap (decompose_node sel) (c :: doc))
    with (match decompose_node sel c with
          | Some y => y :: omap (decompose_node sel) doc
          | None => omap (decompose_node sel) doc
          end).
  by rewrite (decompose_node_clean_id sel c Hc), (IH Hrest).
Qed.

Lemma remove_selectors_clean_id sels doc :
  (∀ sel, sel ∈ sels → find (matches sel) doc = None) →
  remove_selectors sels doc = doc.
Proof.
  unfold remove_selectors. induction sels as [|s sels IH]; intros H; [done|].
  simpl. rewrite decompose_all_clean_id by (apply H, list_elem_of_here).
  apply IH. intros sel Hin. apply H. by apply list_elem_of_further.
Qed.

(** X19. Removing the clutter is idempotent: running the removal loop again
    over its own result, for any list of selectors, changes nothing, so
    cleaning an already cleaned page gives the same markup. *)
Theorem remove_selectors_idempotent (sels : list selector) (doc : soup) :
  remove_selectors sels (remove_selectors sels doc) = remove_selectors sels doc.
Proof.
  apply remove_selectors_clean_id. intros sel Hin.
  by apply remove_selectors_clean.
Qed.
